(** * DFS: a read-only web view of Discord forum channels

    A shallow embedding of the request handlers of [server.go] and of the
    collaborators they call, together with the properties the specification
    states about them.

    Conventions.
    - Go's [int] and [uint64] are [Z] with the wrap-around written out
      ([wrap64]); snowflakes are [Z].
    - A handler returns a [Response]: the error page it displayed, the
      template it executed with its context, or the run-time panic a slice
      or index expression raised.
    - Collaborators whose code is not part of [server.go] are taken as fields
      of a record of oracles ([Collab]), or are modelled from the
      specification in a module of their own. *)

From stdpp Require Import gmap strings list fin_maps sorting.
From Stdlib Require Import ZArith Lia Ascii.

Open Scope Z_scope.

(** ** Go integers *)

Module GoInt.

Definition maxInt : Z := 2 ^ 63 - 1.
Definition minInt : Z := - 2 ^ 63.

(** Two's complement wrap-around of a 64-bit signed [int]. *)
Definition wrap64 (z : Z) : Z := (z + 2 ^ 63) mod 2 ^ 64 - 2 ^ 63.

Definition add (a b : Z) : Z := wrap64 (a + b).
Definition sub (a b : Z) : Z := wrap64 (a - b).
Definition mul (a b : Z) : Z := wrap64 (a * b).

Definition inRange (z : Z) : Prop := minInt <= z <= maxInt.

End GoInt.

(** ** strconv and snowflake parsing *)

Module Strconv.

Definition digit (c : ascii) : option Z :=
  let n := Z.of_N (N_of_ascii c) in
  if (48 <=? n) && (n <=? 57) then Some (n - 48) else None.

(** The value of a run of decimal digits, [None] on any other byte. *)
Fixpoint digits (acc : Z) (s : string) : option Z :=
  match s with
  | EmptyString => Some acc
  | String c rest =>
      match digit c with
      | Some d => digits (acc * 10 + d) rest
      | None => None
      end
  end.

(** The digits of [t] as an [int] of the given sign; an empty [t], a byte
    that is no digit and a value out of the range of [int] are errors. *)
Definition signed (neg : bool) (t : string) : option Z :=
  match t with
  | EmptyString => None
  | _ =>
      match digits 0 t with
      | Some v =>
          let v' := if neg then - v else v in
          if (GoInt.minInt <=? v') && (v' <=? GoInt.maxInt)
          then Some v' else None
      | None => None
      end
  end.

(** [strconv.Atoi]: an optional sign and at least one digit. *)
Definition Atoi (s : string) : option Z :=
  match s with
  | EmptyString => None
  | String c t =>
      if Ascii.eqb c "+" then signed false t
      else if Ascii.eqb c "-" then signed true t
      else signed false s
  end.

(** [strconv.ParseUint(s, 10, 64)]: digits only, below [2^64]. *)
Definition ParseUint (s : string) : option Z :=
  match s with
  | EmptyString => None
  | _ =>
      match digits 0 s with
      | Some v => if v <? 2 ^ 64 then Some v else None
      | None => None
      end
  end.

(** [strconv.ErrSyntax] and [strconv.ErrRange]. *)
Inductive NumErr : Type := ErrSyntax | ErrRange.

(** The error of [ParseUint(s, 10, 64)] on an input it refuses.  Its loop
    returns at the first byte that is no digit (syntax) or with which the
    value passes [2^64 - 1] (range), whichever comes first; the empty
    string is a syntax error. *)
Fixpoint uintError (n : Z) (s : string) : NumErr :=
  match s with
  | EmptyString => ErrSyntax
  | String c rest =>
      match digit c with
      | None => ErrSyntax
      | Some d =>
          if n * 10 + d <? 2 ^ 64 then uintError (n * 10 + d) rest else ErrRange
      end
  end.

End Strconv.

(** ** Errors *)

Module Errors.

(** The errors the handlers see: the REST client's [*httputil.HTTPError],
    the [*strconv.NumError] of a refused number (the function, the input
    and [ErrSyntax] or [ErrRange]), any other error value, and an error
    wrapped by [fmt.Errorf("...: %w")]. *)
Inductive error : Type :=
| HTTPError (status : Z) (body : string)
| NumError (func num : string) (err : Strconv.NumErr)
| ErrorString (msg : string)
| Wrapped (prefix : string) (inner : error).

(** [errors.As(err, &httperr)] with [httperr : *httputil.HTTPError]: the
    first HTTP error on the [Unwrap] chain. *)
Fixpoint asHTTPError (err : error) : option Z :=
  match err with
  | HTTPError status _ => Some status
  | NumError _ _ _ => None
  | ErrorString _ => None
  | Wrapped _ inner => asHTTPError inner
  end.

(** A Go result pair [(value, err)]. *)
Inductive result (A : Type) : Type :=
| Ok (a : A)
| Err (e : error).
Arguments Ok {A} a.
Arguments Err {A} e.

Definition discordStatusIs (err : error) (status : Z) : bool :=
  match asHTTPError err with
  | None => false
  | Some st => st =? status
  end.

End Errors.

Module Http.
Definition StatusBadRequest : Z := 400.
Definition StatusForbidden : Z := 403.
Definition StatusNotFound : Z := 404.
Definition StatusInternalServerError : Z := 500.
End Http.

(** ** The platform's data *)

Module Discord.

Definition Snowflake := Z.

(** [discord.NullSnowflake], [^Snowflake(0)]. *)
Definition NullSnowflake : Snowflake := 2 ^ 64 - 1.

(** [discord.ParseSnowflake]. *)
Definition ParseSnowflake (sf : string) : option Snowflake :=
  if String.eqb sf "null" then Some NullSnowflake else Strconv.ParseUint sf.

Definition Epoch : Z := 1420070400000.

(** [Snowflake.Time], in milliseconds since the Unix epoch. *)
Definition Time (s : Snowflake) : Z := Z.shiftr s 22 + Epoch.

Definition GuildPublicThread : Z := 11.
Definition GuildForum : Z := 15.
Definition PinnedThread : Z := Z.shiftl 1 1.

Record Tag := mkTag { TagID : Snowflake; TagName : string }.

Record Guild := mkGuild { GuildID_ : Snowflake; GuildName : string }.

Record Channel := mkChannel {
  ID : Snowflake;
  GuildID : Snowflake;
  ParentID : Snowflake;
  Type_ : Z;
  Flags : Z;
  NSFW : bool;
  LastMessageID : Snowflake;
  AppliedTags : list Snowflake;
  AvailableTags : list Tag
}.

Record User := mkUser { UserID : Snowflake; Username : string }.

Record Message := mkMessage {
  MsgID : Snowflake;
  MsgChannelID : Snowflake;
  MsgGuildID : Snowflake;
  Author : User;
  Content : string;
  Edited : bool
}.

Definition withGuildID (gid : Snowflake) (m : Message) : Message :=
  {| MsgID := MsgID m; MsgChannelID := MsgChannelID m; MsgGuildID := gid;
     Author := Author m; Content := Content m; Edited := Edited m |}.

End Discord.

(** ** Responses *)

Inductive Response (C : Type) : Type :=
| DisplayErr (status : Z) (err : option Errors.error)
| Render (name : string) (ctx : C)
| Panic.

Arguments DisplayErr {C} status err.
Arguments Render {C} name ctx.
Arguments Panic {C}.

(** A request, reduced to what the handlers read from it: the URL
  parameters of the route (empty when the route has none) and the two
  query parameters. *)
Record Request := mkRequest {
paramGuildID : string;
paramForumID : string;
paramPostID : string;
paramPage : string;
queryAfter : string;
queryBefore : string
}.

(** ** Calls to collaborators

  Handlers run in a writer monad that records every call they make to a
  collaborator, in order. *)

Inductive Call : Type :=
| CallCabinetGuild (id : Z)
| CallCabinetChannel (id : Z)
| CallStateChannel (id : Z)
| CallChannels (guild : Z)
| CallMessagesAfter (channel cursor limit : Z)
| CallMessagesBefore (channel cursor limit : Z)
| CallEnsureMembers (post : Discord.Channel) (msgs : list Discord.Message).

Definition Traced (A : Type) : Type := A * list Call.

Definition ret {A} (a : A) : Traced A := (a, []).

Definition bind {A B} (m : Traced A) (k : A -> Traced B) : Traced B :=
let (a, t1) := m in let (b, t2) := k a in (b, t1 ++ t2).

Definition call {A} (c : Call) (a : A) : Traced A := (a, [c]).

Notation "'call!' x ':=' m 'in' k" := (bind m (fun x => k))
(at level 10, x name, m at level 100, k at level 200).

(** What a [...FromReq] helper reports when it fails: the status and error
  it passed to [displayErr]. *)
Definition Failure : Type := Z * option Errors.error.

Definition failWith {C} (f : Failure) : Response C := DisplayErr (fst f) (snd f).

Section Handlers.

Import Errors Http Discord.

(** The rendered author and message of the templates, produced by
    [s.author] and [s.message]; [Author.ID] is the one field of them that
    [getPost] reads. *)
Context {RAuthor RMessage : Type}.
Variable AuthorID : RAuthor -> Snowflake.

Record Collab := mkCollab {
  CabinetGuild : Snowflake -> result Guild;
  CabinetChannel : Snowflake -> result Channel;
  StateChannel : Snowflake -> result Channel;
  channels : Snowflake -> result (list Channel);
  MessagesAfter : Snowflake -> Snowflake -> Z ->
                  list Message * bool * bool * option error;
  MessagesBefore : Snowflake -> Snowflake -> Z ->
                   list Message * bool * bool * option error;
  ensureMembers : Channel -> list Message -> option error;
  author : Message -> RAuthor;
  message : Message -> RMessage
}.

Variable s : Collab.

(** The error of [discord.ParseSnowflake] on an input it refuses: the one
    of [strconv.ParseUint]. *)
Definition parseError (input : string) : error :=
  NumError "ParseUint" input (Strconv.uintError 0 input).

Definition guildFromReq (r : Request) : Traced (Failure + Guild) :=
  match ParseSnowflake (paramGuildID r) with
  | None => ret (inl (StatusBadRequest, Some (parseError (paramGuildID r))))
  | Some guildID =>
      call! res := call (CallCabinetGuild guildID) (CabinetGuild s guildID) in
      match res with
      | Err err =>
          if discordStatusIs err StatusNotFound
          then ret (inl (StatusNotFound, None))
          else ret (inl (StatusInternalServerError,
                         Some (Wrapped "fetching guild" err)))
      | Ok guild => ret (inr guild)
      end
  end.

Definition forumFromReq (r : Request) : Traced (Failure + Channel) :=
  match ParseSnowflake (paramForumID r) with
  | None => ret (inl (StatusBadRequest, Some (parseError (paramForumID r))))
  | Some forumID =>
      call! res := call (CallCabinetChannel forumID) (CabinetChannel s forumID) in
      match res with
      | Err err =>
          if discordStatusIs err StatusNotFound
          then ret (inl (StatusNotFound, None))
          else ret (inl (StatusInternalServerError,
                         Some (Wrapped "fetching forum" err)))
      | Ok forum =>
          if NSFW forum
          then ret (inl (StatusForbidden,
                         Some (ErrorString "NSFW content is not served")))
          else ret (inr forum)
      end
  end.

Definition postFromReq (r : Request) : Traced (Failure + Channel) :=
  match ParseSnowflake (paramPostID r) with
  | None => ret (inl (StatusBadRequest, Some (parseError (paramPostID r))))
  | Some postID =>
      call! res := call (CallStateChannel postID) (StateChannel s postID) in
      match res with
      | Err err =>
          if discordStatusIs err StatusNotFound
          then ret (inl (StatusNotFound, None))
          else ret (inl (StatusInternalServerError,
                         Some (Wrapped "fetching post" err)))
      | Ok post => ret (inr post)
      end
  end.

(** [x, ok := f(w, r); if !ok { return }] *)
Definition orReturn {A C} (m : Traced (Failure + A))
    (k : A -> Traced (Response C)) : Traced (Response C) :=
  call! o := m in
  match o with
  | inl f => ret (failWith f)
  | inr a => k a
  end.

(** *** Slices *)

(** [l[i]]: [None] is the run-time panic of an index out of range. *)
Definition index {A} (l : list A) (i : Z) : option A :=
  if i <? 0 then None else l !! Z.to_nat i.

Definition len {A} (l : list A) : Z := Z.of_nat (length l).

(** [l[lo:hi]]: Go requires [0 <= lo <= hi <= cap(l)].  Both slice
    expressions of [getForum] have [hi <= len(l)] whenever their guard
    lets them run with [0 <= hi], so the length stands for the capacity. *)
Definition slice {A} (l : list A) (lo hi : Z) : option (list A) :=
  if (0 <=? lo) && (lo <=? hi) && (hi <=? len l)
  then Some (take (Z.to_nat (hi - lo)) (drop (Z.to_nat lo) l))
  else None.

(** [sort.SliceStable]: a stable insertion sort by [less].  Each element,
    in slice order, goes behind the elements it is not less than, so that
    equal elements keep their order. *)
Fixpoint insertStable {A} (less : A -> A -> bool) (x : A) (l : list A) : list A :=
  match l with
  | [] => [x]
  | y :: rest => if less x y then x :: y :: rest
                 else y :: insertStable less x rest
  end.

Definition SliceStable {A} (less : A -> A -> bool) (l : list A) : list A :=
  fold_left (fun sorted x => insertStable less x sorted) l [].

(** *** getForum *)

Variable URL : string.

Record Post := mkPost { PostChannel : Channel; Tags : list Tag }.

Record ForumCtx := mkForumCtx {
  FGuild : Guild;
  FForum : Channel;
  FPosts : list Post;
  FPrev : Z;
  FNext : Z;
  FURL : string
}.

Definition setPosts (ctx : ForumCtx) (posts : list Post) : ForumCtx :=
  mkForumCtx (FGuild ctx) (FForum ctx) posts (FPrev ctx) (FNext ctx) (FURL ctx).
Definition setPrev (ctx : ForumCtx) (prev : Z) : ForumCtx :=
  mkForumCtx (FGuild ctx) (FForum ctx) (FPosts ctx) prev (FNext ctx) (FURL ctx).
Definition setNext (ctx : ForumCtx) (next : Z) : ForumCtx :=
  mkForumCtx (FGuild ctx) (FForum ctx) (FPosts ctx) (FPrev ctx) next (FURL ctx).

(** [Post.IsPinned]. *)
Definition IsPinned (p : Post) : bool :=
  negb (Z.land (Flags (PostChannel p)) PinnedThread =? 0).

(** The tags of a thread: for each applied tag, each available tag of the
    forum with that identifier, appended in that order. *)
Definition postTags (forum thread : Channel) : list Tag :=
  fold_left
    (fun tags tag =>
       fold_left
         (fun tags availtag =>
            if TagID availtag =? tag then tags ++ [availtag] else tags)
         (AvailableTags forum) tags)
    (AppliedTags thread) [].

(** The loop of lines 271-286: the public threads of the forum, in the
    order of the channel list. *)
Definition collectPosts (forum : Channel) (chans : list Channel) : list Post :=
  fold_left
    (fun posts thread =>
       if negb (ParentID thread =? ID forum)
          || negb (Type_ thread =? GuildPublicThread)
       then posts
       else posts ++ [mkPost thread (postTags forum thread)])
    chans [].

(** The comparison handed to [sort.SliceStable].  In Go [&] binds tighter
    than [^], so the first test is [Flags_i ^ (Flags_j & PinnedThread)]. *)
Definition postLess (pi pj : Post) : bool :=
  if negb (Z.lxor (Flags (PostChannel pi))
             (Z.land (Flags (PostChannel pj)) PinnedThread) =? 0)
  then negb (Z.land (Flags (PostChannel pi)) PinnedThread =? 0)
  else Time (LastMessageID (PostChannel pi))
       >? Time (LastMessageID (PostChannel pj)).

(** [page, err := strconv.Atoi(...); if err != nil || page < 1 { page = 1 }] *)
Definition pageOf (param : string) : Z :=
  match Strconv.Atoi param with
  | Some page => if page <? 1 then 1 else page
  | None => 1
  end.

(** Lines 297-307: the page's [Prev] and [Next], written into [ctx], and
    its slice of [posts]; [None] when a slice expression panics. *)
Definition paginate (ctx : ForumCtx) (posts : list Post) (page : Z)
    : option (ForumCtx * list Post) :=
  let ctx := if page >? 1 then setPrev ctx (GoInt.sub page 1) else ctx in
  if len posts >? GoInt.mul page 25 then
    let ctx := setNext ctx (GoInt.add page 1) in
    posts ← slice posts (GoInt.mul (GoInt.sub page 1) 25) (GoInt.mul page 25);
    Some (ctx, posts)
  else if len posts >=? GoInt.mul (GoInt.sub page 1) 25 then
    posts ← slice posts (GoInt.mul (GoInt.sub page 1) 25) (len posts);
    Some (ctx, posts)
  else
    Some (ctx, []).

Definition getForum (r : Request) : Traced (Response ForumCtx) :=
  orReturn (guildFromReq r) (fun guild =>
  orReturn (forumFromReq r) (fun forum =>
    let ctx := mkForumCtx guild forum [] 0 0 URL in
    call! res := call (CallChannels (GuildID_ guild))
                      (channels s (GuildID_ guild)) in
    match res with
    | Err err =>
        ret (DisplayErr StatusInternalServerError
               (Some (Wrapped "fetching guild threads" err)))
    | Ok chans =>
        let posts := collectPosts forum chans in
        let ctx := setPosts ctx (SliceStable postLess (FPosts ctx)) in
        let page := pageOf (paramPage r) in
        match paginate ctx posts page with
        | None => ret Panic
        | Some (ctx, posts) =>
            let ctx := setPosts ctx posts in
            ret (Render "forum.gohtml" ctx)
        end
    end)).

(** *** getPost *)

Record MessageGroup := mkMessageGroup {
  GAuthor : RAuthor;
  Messages : list RMessage
}.

Record PostCtx := mkPostCtx {
  PGuild : Guild;
  PForum : Channel;
  PPost : Channel;
  PPrev : Snowflake;
  PNext : Snowflake;
  MessageGroups : list MessageGroup;
  PURL : string
}.

Definition setPPrev (ctx : PostCtx) (prev : Snowflake) : PostCtx :=
  mkPostCtx (PGuild ctx) (PForum ctx) (PPost ctx) prev (PNext ctx)
    (MessageGroups ctx) (PURL ctx).
Definition setPNext (ctx : PostCtx) (next : Snowflake) : PostCtx :=
  mkPostCtx (PGuild ctx) (PForum ctx) (PPost ctx) (PPrev ctx) next
    (MessageGroups ctx) (PURL ctx).
Definition setMessageGroups (ctx : PostCtx) (g : list MessageGroup) : PostCtx :=
  mkPostCtx (PGuild ctx) (PForum ctx) (PPost ctx) (PPrev ctx) (PNext ctx)
    g (PURL ctx).

(** Lines 338-345: the direction and the cursor string of the request. *)
Definition cursorOf (r : Request) : bool * string :=
  if negb (String.eqb (queryAfter r) "") then (true, queryAfter r)
  else if negb (String.eqb (queryBefore r) "") then (false, queryBefore r)
  else (true, ""%string).

(** One iteration of the loop of lines 386-396 on the state
    [(msgrps, i)]; [None] is the panic of [msgrps[i]] out of range.  [i]
    counts groups, of which there are at most [len(msgs)], so [i++] does
    not wrap. *)
Definition groupStep (gid : Snowflake) (st : list MessageGroup * Z)
    (m : Message) : option (list MessageGroup * Z) :=
  let '(msgrps, i) := st in
  let m := withGuildID gid m in
  let msg := message s m in
  if i =? -1 then
    Some (msgrps ++ [mkMessageGroup (author s m) [msg]], i + 1)
  else
    g ← index msgrps i;
    if negb (AuthorID (GAuthor g) =? UserID (Author m)) then
      Some (msgrps ++ [mkMessageGroup (author s m) [msg]], i + 1)
    else
      Some (<[Z.to_nat i := mkMessageGroup (GAuthor g) (Messages g ++ [msg])]>
              msgrps, i).

Definition groupMessages (gid : Snowflake) (msgs : list Message)
    : option (list MessageGroup) :=
  fst <$> fold_left (fun st m => st ← st; groupStep gid st m)
                    msgs (Some ([], -1)).

(** Lines 364-369: the [Next] and [Prev] cursors; [None] is the panic of
    an index out of range. *)
Definition cursors (ctx : PostCtx) (msgs : list Message)
    (hasbefore hasafter : bool) : option PostCtx :=
  ctx ← (if hasafter && (len msgs >? 0)
         then m ← index msgs (len msgs - 1); Some (setPNext ctx (MsgID m))
         else Some ctx);
  if hasbefore
  then m ← index msgs 0; Some (setPPrev ctx (MsgID m))
  else Some ctx.

(** Lines 325-398: [getPost] past its three lookups. *)
Definition renderPost (guild : Guild) (forum post : Channel) (r : Request)
    : Traced (Response PostCtx) :=
  let ctx := mkPostCtx guild forum post 0 0 [] URL in
  let '(asc, curstr) := cursorOf r in
  match (if negb (String.eqb curstr "")
         then ParseSnowflake curstr else Some 0) with
  | None =>
      ret (DisplayErr StatusBadRequest
             (Some (Wrapped "invalid snowflake" (parseError curstr))))
  | Some cur =>
      call! res :=
        (if asc
         then call (CallMessagesAfter (ID post) cur 25)
                   (MessagesAfter s (ID post) cur 25)
         else call (CallMessagesBefore (ID post) cur 25)
                   (MessagesBefore s (ID post) cur 25)) in
      let '(msgs, hasbefore, hasafter, err) := res in
      match cursors ctx msgs hasbefore hasafter with
      | None => ret Panic
      | Some ctx =>
          match err with
          | Some err =>
              ret (DisplayErr StatusInternalServerError
                     (Some (Wrapped "fetching post's messages" err)))
          | None =>
              call! err := call (CallEnsureMembers post msgs)
                                (ensureMembers s post msgs) in
              match err with
              | Some err =>
                  ret (DisplayErr StatusInternalServerError
                         (Some (Wrapped "fetching post's members" err)))
              | None =>
                  match groupMessages (GuildID_ guild) msgs with
                  | None => ret Panic
                  | Some msgrps =>
                      let ctx := setMessageGroups ctx msgrps in
                      ret (Render "post.gohtml" ctx)
                  end
              end
          end
      end
  end.

Definition getPost (r : Request) : Traced (Response PostCtx) :=
  orReturn (guildFromReq r) (fun guild =>
  orReturn (forumFromReq r) (fun forum =>
  orReturn (postFromReq r) (fun post =>
    renderPost guild forum post r))).

End Handlers.

(** ** Gateway events and the handlers of newServer *)

Module Gateway.

Import Discord.

Inductive Event : Type :=
| MessageCreateEvent (m : Message)
| MessageUpdateEvent (m : Message)
| MessageDeleteEvent (id channelID guildID : Snowflake)
| OtherEvent (kind : string).

End Gateway.

(** The two mutating methods of [*messageCache] that the handlers call. *)
Class CacheOps (T : Type) := {
Set_ : Discord.Message -> bool -> T -> T;
Remove : Discord.Snowflake -> Discord.Snowflake -> T -> T
}.

Section EventHandlers.

Import Gateway.
Context {T : Type} `{CacheOps T}.

(** A handler given to [AddHandler] runs on the events of its parameter's
    type and on no other. *)
Definition Handler : Type := Event -> option (T -> T).

(** Lines 62-64. *)
Definition onMessageCreate : Handler := fun e =>
  match e with
  | MessageCreateEvent m => Some (Set_ m false)
  | _ => None
  end.

(** Lines 65-67. *)
Definition onMessageUpdate : Handler := fun e =>
  match e with
  | MessageUpdateEvent m => Some (Set_ m true)
  | _ => None
  end.

(** Lines 68-70. *)
Definition onMessageDelete : Handler := fun e =>
  match e with
  | MessageDeleteEvent id channelID _ => Some (Remove channelID id)
  | _ => None
  end.

(** The handlers [newServer] registers, in registration order. *)
Definition newServerHandlers : list Handler :=
  [onMessageCreate; onMessageUpdate; onMessageDelete].

(** The gateway runs every registered handler whose parameter type is
    the event's. *)
Definition dispatch (hs : list Handler) (e : Event) (c : T) : T :=
  fold_left (fun c h => match h e with Some f => f c | None => c end) hs c.

End EventHandlers.

(** A cache that only records the mutations asked of it. *)
Inductive CacheOp : Type :=
| OpSet (m : Discord.Message) (update : bool)
| OpRemove (channelID id : Discord.Snowflake).

#[export] Instance logCacheOps : CacheOps (list CacheOp) := {|
Set_ m update log := log ++ [OpSet m update];
Remove channelID id log := log ++ [OpRemove channelID id]
|}.

(** ** The message cache *)

(** Modelled from the spec: the message cache behind [s.messageCache]
  ([newMessageCache], [Set], [Remove], [MessagesAfter], [MessagesBefore])
  is not among the sources.  The module follows sections 3 and 4.1 to 4.4
  of the specification: a per-channel sequence of messages ascending by
  identifier (ChannelStore), the backfill state machine
  (BackfillController) and the cursor pagination (PaginationEngine).
  What is not modelled: [lastActivityAt], locks and waiting. *)
Module MessageCache.

Import Errors Discord.

(** [Inactive] is the state the server records in its [fetchedInactive]
    set. *)
Inductive BackfillState : Type := Unknown | Backfilling | Complete | Inactive.

Record ChannelEntry := mkEntry {
  msgs : list Message;
  backfillState : BackfillState
}.

Abbreviation cache := (gmap Z ChannelEntry).

(** An entry is created on first access, in state [Unknown]. *)
Definition entry (c : cache) (ch : Snowflake) : ChannelEntry :=
  default (mkEntry [] Unknown) (c !! ch).

(** *** ChannelStore *)

(** Modelled from the spec: the upsert of ChannelStore (4.1), by
    identifier and preserving the sort order. *)
Fixpoint upsert (m : Message) (l : list Message) : list Message :=
  match l with
  | [] => [m]
  | x :: rest =>
      if MsgID m <? MsgID x then m :: x :: rest
      else if MsgID m =? MsgID x then m :: rest
      else x :: upsert m rest
  end.

Definition markEdited (update : bool) (m : Message) : Message :=
  if update
  then mkMessage (MsgID m) (MsgChannelID m) (MsgGuildID m) (Author m)
         (Content m) true
  else m.

(** Modelled from the spec: [messageCache.Set], the upsert of a create or
    update event (4.2); an update flips the edited marker. *)
Definition Set_ (m : Message) (update : bool) (c : cache) : cache :=
  let e := entry c (MsgChannelID m) in
  <[MsgChannelID m :=
      mkEntry (upsert (markEdited update m) (msgs e)) (backfillState e)]> c.

(** Modelled from the spec: [messageCache.Remove] (4.1, 4.2); removal
    leaves the neighbours as they are. *)
Definition Remove (channelID id : Snowflake) (c : cache) : cache :=
  let e := entry c channelID in
  <[channelID :=
      mkEntry (filter (fun m => MsgID m ≠ id) (msgs e)) (backfillState e)]> c.

Definition merge (fetched : list Message) (ch : Snowflake) (c : cache) : cache :=
  let e := entry c ch in
  <[ch := mkEntry (foldr upsert (msgs e) fetched) (backfillState e)]> c.

Definition setState (st : BackfillState) (ch : Snowflake) (c : cache) : cache :=
  <[ch := mkEntry (msgs (entry c ch)) st]> c.

Inductive Direction : Type := After | Before.

(** Modelled from the spec: [window] of ChannelStore (4.1) with the
    ordering rule of 4.4: up to [limit] messages strictly after or before
    the cursor (from the oldest or newest end when the cursor is absent,
    that is zero), ascending, with the flags telling whether cached
    messages lie outside the returned slice on each side.  Paging before
    takes the messages in descending order and reverses what it took. *)
Definition window (l : list Message) (cur : Snowflake) (dir : Direction)
    (limit : Z) : list Message * bool * bool :=
  let n := Z.to_nat limit in
  match dir with
  | After =>
      let older := if cur =? 0 then []
                   else filter (fun m => MsgID m <= cur) l in
      let newer := if cur =? 0 then l
                   else filter (fun m => cur < MsgID m) l in
      (take n newer,
       bool_decide (older ≠ []),
       bool_decide (drop n newer ≠ []))
  | Before =>
      let older := if cur =? 0 then l
                   else filter (fun m => MsgID m < cur) l in
      let newer := if cur =? 0 then []
                   else filter (fun m => cur <= MsgID m) l in
      let descending := reverse older in
      (reverse (take n descending),
       bool_decide (drop n descending ≠ []),
       bool_decide (newer ≠ []))
  end.

(** *** BackfillController *)

(** The REST collaborator: the history fetch and the archived flag of the
    channel metadata. *)
Record Rest := mkRest {
  fetchHistory : Snowflake -> Snowflake -> Direction -> Z -> result (list Message);
  archived : Snowflake -> bool
}.

Inductive RestCall : Type :=
| FetchHistory (ch cur : Snowflake) (dir : Direction) (limit : Z).

Definition restChannel (rc : RestCall) : Snowflake :=
  match rc with FetchHistory ch _ _ _ => ch end.

(** The requested window is taken as covered by the cache when the cache
    fills the page. *)
Definition covered (l : list Message) (cur : Snowflake) (dir : Direction)
    (limit : Z) : bool :=
  bool_decide (length (window l cur dir limit).1.1 = Z.to_nat limit).

(** Modelled from the spec: one fetch of the BackfillController (4.3) for
    [ch], with the state the channel takes afterwards:
    [onOk] after a successful fetch, [onErr] after a failed one. *)
Definition backfill (rest : Rest) (c : cache) (ch cur : Snowflake)
    (dir : Direction) (limit : Z) (onOk onErr : BackfillState)
    : cache * list RestCall * option error :=
  let c := setState Backfilling ch c in
  match fetchHistory rest ch cur dir limit with
  | Err e => (setState onErr ch c, [FetchHistory ch cur dir limit], Some e)
  | Ok fetched =>
      (setState onOk ch (merge fetched ch c),
       [FetchHistory ch cur dir limit], None)
  end.

(** Modelled from the spec: the decision of the BackfillController (4.3).
    An inactive channel is never fetched; an unknown one is fetched and
    classified; a complete one is fetched when the cache does not cover the
    window; a channel that is being backfilled is left to that fetch. *)
Definition ensureWindow (rest : Rest) (c : cache) (ch cur : Snowflake)
    (dir : Direction) (limit : Z) : cache * list RestCall * option error :=
  match backfillState (entry c ch) with
  | Inactive => (c, [], None)
  | Backfilling => (c, [], None)
  | Unknown =>
      backfill rest c ch cur dir limit
        (if archived rest ch then Inactive else Complete) Unknown
  | Complete =>
      if covered (msgs (entry c ch)) cur dir limit then (c, [], None)
      else backfill rest c ch cur dir limit Complete Complete
  end.

(** *** PaginationEngine *)

(** Modelled from the spec: [page] of the PaginationEngine (4.4), which
    is what [MessagesAfter] and [MessagesBefore] of the message cache do. *)
Definition page (rest : Rest) (c : cache) (ch cur : Snowflake)
    (dir : Direction) (limit : Z)
    : (list Message * bool * bool * option error) * cache * list RestCall :=
  let '(c, calls, err) := ensureWindow rest c ch cur dir limit in
  match err with
  | Some e => (([], false, false, Some e), c, calls)
  | None =>
      let '(ms, hasBefore, hasAfter) := window (msgs (entry c ch)) cur dir limit in
      ((ms, hasBefore, hasAfter, None), c, calls)
  end.

Definition MessagesAfter (rest : Rest) (c : cache) (ch cur : Snowflake) (limit : Z) :=
  page rest c ch cur After limit.

Definition MessagesBefore (rest : Rest) (c : cache) (ch cur : Snowflake) (limit : Z) :=
  page rest c ch cur Before limit.

(** *** Histories *)

(** What happens to the cache over time: page requests, each with the
    answers the REST collaborator gives at that moment, and gateway
    events. *)
Inductive Op : Type :=
| OpPage (rest : Rest) (ch cur : Snowflake) (dir : Direction) (limit : Z)
| OpEvent (e : Gateway.Event).

#[export] Instance cacheOps : CacheOps cache := Build_CacheOps cache Set_ Remove.

Definition step (c : cache) (op : Op) : cache * list RestCall :=
  match op with
  | OpPage rest ch cur dir limit =>
      let '(_, c, calls) := page rest c ch cur dir limit in (c, calls)
  | OpEvent e => (dispatch newServerHandlers e c, [])
  end.

Fixpoint run (c : cache) (ops : list Op) : cache * list RestCall :=
  match ops with
  | [] => (c, [])
  | op :: rest =>
      let '(c1, calls1) := step c op in
      let '(c2, calls2) := run c1 rest in
      (c2, calls1 ++ calls2)
  end.

(** The identifiers of a channel's cached messages. *)
Definition ids (c : cache) (ch : Snowflake) : list Z :=
  MsgID <$> msgs (entry c ch).

End MessageCache.

(** ** Member resolution *)

(** Modelled from the spec: [ensureMembers] is not among the sources; only
  its call in [getPost] and the [membersGot] set of the server are.  The
  module follows section 4.5 of the specification: the distinct authors
  of the page are fetched in one batched call unless the channel is
  already marked resolved, and a successful fetch stores the records and
  marks the channel.  The deadline is part of the collaborator's answer
  (an expired deadline is an error); the lock is not modelled. *)
Module MemberResolver.

Import Errors Discord.

Record MemberRecord := mkMember { DisplayName : string; Avatar : string }.

Record state := mkState {
  membersGot : gset Z;
  members : gmap (Z * Z) MemberRecord
}.

(** [fetchMembers(guildID, userIDs)]. *)
Definition Fetch : Type :=
  Snowflake -> list Snowflake -> result (list (Snowflake * MemberRecord)).

Inductive MemberCall : Type :=
| FetchMembers (guild : Snowflake) (users : list Snowflake).

Definition authors (msgs : list Message) : list Snowflake :=
  remove_dups ((fun m => UserID (Author m)) <$> msgs).

Definition store (guild : Snowflake) (recs : list (Snowflake * MemberRecord))
    (ms : gmap (Z * Z) MemberRecord) : gmap (Z * Z) MemberRecord :=
  foldr (fun '(user, rec) ms => <[(guild, user) := rec]> ms) ms recs.

(** Modelled from the spec: [ensure] of the MemberResolver (4.5), the
    server's [ensureMembers]. *)
Definition ensureMembers (fetch : Fetch) (st : state) (post : Channel)
    (msgs : list Message) : state * list MemberCall * option error :=
  if decide (ID post ∈ membersGot st) then (st, [], None)
  else
    let users := authors msgs in
    match fetch (GuildID post) users with
    | Err e => (st, [FetchMembers (GuildID post) users], Some e)
    | Ok recs =>
        (mkState ({[ID post]} ∪ membersGot st)
                 (store (GuildID post) recs (members st)),
         [FetchMembers (GuildID post) users], None)
    end.

End MemberResolver.

(** ** The handlers over the modelled cache *)

(** The collaborators of [s], with the two message fetches answered by the
    modelled cache in state [c] with REST collaborator [rest]. *)
Definition withCache {RAuthor RMessage : Type} (s : @Collab RAuthor RMessage)
    (rest : MessageCache.Rest) (c : MessageCache.cache) : @Collab RAuthor RMessage :=
  mkCollab (CabinetGuild s) (CabinetChannel s) (StateChannel s) (channels s)
    (fun ch cur limit => (MessageCache.MessagesAfter rest c ch cur limit).1.1)
    (fun ch cur limit => (MessageCache.MessagesBefore rest c ch cur limit).1.1)
    (ensureMembers s) (author s) (message s).

(** ** The vocabulary of the properties *)

Section Vocabulary.

Import Errors Http Discord.
Context {RAuthor RMessage : Type}.
Variable s : @Collab RAuthor RMessage.

(** The three lookups of a request. *)
Inductive Lookup : Type := GuildLookup | ForumLookup | PostLookup.

(** [lookupFails r which e calls]: of the lookups of [r], made in the order
    guild, forum, post, [which] is the first to fail, with upstream error
    [e]; [calls] are the calls made up to and including it. *)
Inductive lookupFails (r : Request) : Lookup -> error -> list Call -> Prop :=
| GuildFails gid e :
    ParseSnowflake (paramGuildID r) = Some gid ->
    CabinetGuild s gid = Err e ->
    lookupFails r GuildLookup e [CallCabinetGuild gid]
| ForumFails gid guild fid e :
    ParseSnowflake (paramGuildID r) = Some gid ->
    CabinetGuild s gid = Ok guild ->
    ParseSnowflake (paramForumID r) = Some fid ->
    CabinetChannel s fid = Err e ->
    lookupFails r ForumLookup e [CallCabinetGuild gid; CallCabinetChannel fid]
| PostFails gid guild fid forum pid e :
    ParseSnowflake (paramGuildID r) = Some gid ->
    CabinetGuild s gid = Ok guild ->
    ParseSnowflake (paramForumID r) = Some fid ->
    CabinetChannel s fid = Ok forum -> NSFW forum = false ->
    ParseSnowflake (paramPostID r) = Some pid ->
    StateChannel s pid = Err e ->
    lookupFails r PostLookup e
      [CallCabinetGuild gid; CallCabinetChannel fid; CallStateChannel pid].

(** The threads [getForum] keeps. *)
Definition isPostOf (forum thread : Channel) : Prop :=
  ParentID thread = ID forum /\ Type_ thread = GuildPublicThread.

#[export] Instance isPostOf_dec forum thread : Decision (isPostOf forum thread).
Proof. unfold isPostOf. apply _. Defined.

(** No two neighbours of a list are equal. *)
Definition adjacentDistinct (ids : list Z) : Prop :=
  forall k a b, ids !! k = Some a -> ids !! S k = Some b -> a <> b.

(** A run of messages: its first message and the ones that follow. *)
Definition Run : Type := Message * list Message.

Definition runList (run : Run) : list Message := run.1 :: run.2.

(** The rendered message of line 387-388. *)
Definition rendered (gid : Snowflake) (m : Message) : RMessage :=
  message s (withGuildID gid m).

(** The group the loop builds from a run. *)
Definition groupOf (gid : Snowflake) (run : Run) : MessageGroup :=
  mkMessageGroup (author s (withGuildID gid run.1)) (rendered gid <$> runList run).

Definition sameAuthor (run : Run) : Prop :=
  Forall (fun m => UserID (Author m) = UserID (Author run.1)) (runList run).

Definition headAuthors (runs : list Run) : list Z :=
  (fun run : Run => UserID (Author run.1)) <$> runs.

(** A fetch result that does not report messages before an empty page. *)
Definition nonEmptyBefore (res : list Message * bool * bool * option error) : Prop :=
  let '(msgs, hasbefore, _, _) := res in hasbefore = true -> msgs <> [].

(** The invariant of the message fetches of [s]. *)
Definition fetchInvariant : Prop :=
  forall ch cur limit,
    nonEmptyBefore (MessagesAfter s ch cur limit) /\
    nonEmptyBefore (MessagesBefore s ch cur limit).

(** The messages of a fetch result. *)
Definition fetched (res : list Message * bool * bool * option error) : list Message :=
  res.1.1.1.

Definition idLt (a b : Message) : Prop := MsgID a < MsgID b.

(** Ascending by identifier, without duplicates. *)
Definition ascending (l : list Message) : Prop := StronglySorted idLt l.

(** Every channel of the cache is ascending. *)
Definition wellOrdered (c : MessageCache.cache) : Prop :=
  forall ch, ascending (MessageCache.msgs (MessageCache.entry c ch)).

End Vocabulary.

(** A request renders its page although its call of [ensureMembers]
    failed. *)
Definition rendersDespiteMemberFailure {RAuthor RMessage : Type}
    (AuthorID : RAuthor -> Z) (s : @Collab RAuthor RMessage) (URL : string)
    (r : Request) : Prop :=
  forall post msgs e,
    CallEnsureMembers post msgs ∈ (getPost AuthorID s URL r).2 ->
    ensureMembers s post msgs = Some e ->
    exists ctx, (getPost AuthorID s URL r).1 = Render "post.gohtml" ctx.

(** ** A small guild to run the handlers on *)

Module Fixture.

Import Errors Discord.

Definition guild1 : Guild := mkGuild 1 "guild".

Definition tagHelp : Tag := mkTag 50 "help".
Definition tagDone : Tag := mkTag 51 "done".

Definition forum2 : Channel :=
  mkChannel 2 1 0 GuildForum 0 false 0 [] [tagHelp; tagDone].

(** An older, unpinned post and a newer, pinned one, listed in that order. *)
Definition post3 : Channel :=
  mkChannel 3 1 2 GuildPublicThread 0 false (Z.shiftl 10 22) [51] [].
Definition post4 : Channel :=
  mkChannel 4 1 2 GuildPublicThread PinnedThread false (Z.shiftl 20 22) [] [].
Definition thread5 : Channel :=
  mkChannel 5 1 9 GuildPublicThread 0 false 0 [] [].

Definition chans : list Channel := [forum2; post3; post4; thread5].

Definition alice : User := mkUser 10 "alice".
Definition bob : User := mkUser 11 "bob".

Definition msg (id : Z) (u : User) (text : string) : Message :=
  mkMessage id 3 0 u text false.

Definition thread : list Message :=
  [msg 100 alice "a"; msg 101 alice "b"; msg 102 bob "c"; msg 103 alice "d"].

Definition notFound : error := HTTPError 404 "Unknown".
Definition deadline : error := ErrorString "context deadline exceeded".

(** The collaborators: one guild, its forum and posts; a fixed answer of
    the message fetch and of the member resolution. *)
Definition server (fetched : list Message * bool * bool * option error)
    (members : option error) : @Collab User Message :=
  mkCollab
    (fun id => if id =? 1 then Ok guild1 else Err notFound)
    (fun id => if id =? 2 then Ok forum2 else Err notFound)
    (fun id => if id =? 3 then Ok post3
               else if id =? 7 then Err (ErrorString "connection reset")
               else Err notFound)
    (fun _ => Ok chans)
    (fun _ _ _ => fetched)
    (fun _ _ _ => fetched)
    (fun _ _ => members)
    Author
    (fun m => m).

Definition plain : @Collab User Message :=
  server (thread, false, false, None) None.

Definition request (post page after before : string) : Request :=
  mkRequest "1" "2" post page after before.

End Fixture.

(** ** Variations of the fixture *)

(** The fixture with a member resolution that runs into its deadline. *)
Definition membersTimeOut : @Collab Discord.User Discord.Message :=
  Fixture.server (Fixture.thread, false, false, None) (Some Fixture.deadline).

(** A fetch that reports messages on both sides of a page of four. *)
Definition middlePage : @Collab Discord.User Discord.Message :=
  Fixture.server (Fixture.thread, true, true, None) None.

Definition noMembers : MemberResolver.state := MemberResolver.mkState ∅ ∅.

(** A member fetch that answers with a record for every user asked for. *)
Definition fetchAll : MemberResolver.Fetch :=
  fun _ users =>
    Errors.Ok ((fun u => (u, MemberResolver.mkMember "member" "avatar")) <$> users).

(** A REST collaborator with nothing to add and a thread that is still
    open, and one whose threads are archived. *)
Definition restOpen : MessageCache.Rest :=
  MessageCache.mkRest (fun _ _ _ _ => Errors.Ok []) (fun _ => false).
Definition restArchived : MessageCache.Rest :=
  MessageCache.mkRest (fun _ _ _ _ => Errors.Ok Fixture.thread) (fun _ => true).

(** The four messages of the thread arrive out of order, one is edited
    and one more is created and deleted. *)
Definition arrivals : list MessageCache.Op :=
  [MessageCache.OpEvent (Gateway.MessageCreateEvent (Fixture.msg 103 Fixture.alice "d"));
   MessageCache.OpEvent (Gateway.MessageCreateEvent (Fixture.msg 100 Fixture.alice "a"));
   MessageCache.OpEvent (Gateway.MessageCreateEvent (Fixture.msg 102 Fixture.bob "x"));
   MessageCache.OpEvent (Gateway.MessageCreateEvent (Fixture.msg 101 Fixture.alice "b"));
   MessageCache.OpEvent (Gateway.MessageUpdateEvent (Fixture.msg 102 Fixture.bob "c"));
   MessageCache.OpEvent (Gateway.MessageCreateEvent (Fixture.msg 104 Fixture.bob "e"));
   MessageCache.OpEvent (Gateway.MessageDeleteEvent 104 3 1)].

Definition archivedCache : MessageCache.cache :=
  (MessageCache.run ∅ [MessageCache.OpPage restArchived 3 0 MessageCache.After 25]).1.

Definition laterOps : list MessageCache.Op :=
  [MessageCache.OpPage restOpen 3 101 MessageCache.Before 25;
   MessageCache.OpEvent (Gateway.MessageCreateEvent (Fixture.msg 104 Fixture.bob "late"));
   MessageCache.OpPage restArchived 3 0 MessageCache.After 25;
   MessageCache.OpPage restOpen 4 0 MessageCache.After 25;
   MessageCache.OpPage restOpen 3 104 MessageCache.After 25].

(** The messages 1 to [n] of channel 3. *)
Definition numbered (n : nat) : list Discord.Message :=
  (fun i => Fixture.msg (Z.of_nat i) Fixture.alice "m") <$> seq 1 n.

(** A REST collaborator whose history of the channel is ten messages. *)
Definition restTen : MessageCache.Rest :=
  MessageCache.mkRest (fun _ _ _ _ => Errors.Ok (numbered 10)) (fun _ => false).

(** ** The other handlers of server.go *)

Section GuildHandlers.

Import Errors Http Discord.
Context {RAuthor RMessage Member : Type}.
Variable s : @Collab RAuthor RMessage.
Variable URL : string.

(** What [getGuild] and [publicActiveThreads] read besides the
    collaborators of [Collab]: the cabinet's channel list and own user
    ([nil] when its lookup fails), the member lookup of the state,
    [discord.CalcOverwrites], the [MessageCount] field of a channel, which
    the record of channels above does not carry, and the text of an error. *)
Variable CabinetChannels : Snowflake -> result (list Channel).
Variable CabinetMe : option User.
Variable StateMember : Snowflake -> Snowflake -> result Member.
Variable CalcOverwrites : Guild -> Channel -> Member -> Z.
Variable MessageCount : Channel -> Z.
Variable ErrorText : error -> string.

(** Lines 138-151. *)
Definition publicActiveThreads (gid : Snowflake) : result (list Channel) :=
  match CabinetChannels gid with
  | Err err => Err err
  | Ok channels =>
      Ok (fold_left
            (fun threads channel =>
               if negb (Type_ channel =? GuildPublicThread) then threads
               else threads ++ [channel])
            channels [])
  end.

Definition PermissionViewChannel : Z := Z.shiftl 1 10.
Definition PermissionReadMessageHistory : Z := Z.shiftl 1 16.

(** [Permissions.Has]. *)
Definition Has (perms perm : Z) : bool := Z.land perms perm =? perm.

(** [Snowflake.IsValid]: neither zero nor the null snowflake. *)
Definition IsValid (sf : Snowflake) : bool :=
  negb ((sf =? 0) || (sf =? NullSnowflake)).

(** The zero [time.Time], 1 January of year 1, in milliseconds since the
    Unix epoch. *)
Definition zeroTime : Z := -62135596800000.

Record ForumChannel := mkForumChannel {
  FCChannel : Channel;
  FCPosts : list Channel;
  TotalMessageCount : Z;
  LastActive : Z
}.

Record GuildCtx := mkGuildCtx {
  GGuild : Guild;
  ForumChannels : list ForumChannel;
  GURL : string
}.

(** Lines 206-212. *)
Definition forumPosts (chans : list Channel) (forum : Channel) : list Channel :=
  fold_left
    (fun posts t =>
       if (ParentID t =? ID forum) && (Type_ t =? GuildPublicThread)
       then posts ++ [t] else posts)
    chans [].

(** Lines 213-216. *)
Definition messageCount (posts : list Channel) : Z :=
  fold_left (fun msgcount post => GoInt.add msgcount (MessageCount post)) posts 0.

(** Lines 217-225. *)
Definition lastActive (forum : Channel) (posts : list Channel) : Z :=
  fold_left
    (fun lastactive post =>
       if Time (LastMessageID post) >? lastactive
       then Time (LastMessageID post) else lastactive)
    posts
    (if IsValid (LastMessageID forum) then Time (LastMessageID forum)
     else zeroTime).

(** The loop of lines 196-229. *)
Definition forumChannels (guild : Guild) (selfMember : Member)
    (chans : list Channel) : list ForumChannel :=
  fold_left
    (fun fcs forum =>
       if negb (Type_ forum =? GuildForum) then fcs
       else
         let perms := CalcOverwrites guild forum selfMember in
         if negb (Has perms (Z.lor (Z.lor 0 PermissionReadMessageHistory)
                               PermissionViewChannel))
         then fcs
         else
           let posts := forumPosts chans forum in
           fcs ++ [mkForumChannel forum posts (messageCount posts)
                     (lastActive forum posts)])
    chans [].

(** The comparison of line 231. *)
Definition moreRecent (a b : ForumChannel) : bool := LastActive a >? LastActive b.

(** Lines 172-234.  [me.ID] panics when the cabinet has no own user. *)
Definition getGuild (r : Request) : Response GuildCtx :=
  match (guildFromReq s r).1 with
  | inl f => failWith f
  | inr guild =>
      match channels s (GuildID_ guild) with
      | Err err =>
          DisplayErr StatusInternalServerError
            (Some (ErrorString ("fetching guild channels: " ++ ErrorText err)))
      | Ok chans =>
          match CabinetMe with
          | None => Panic
          | Some me =>
              match StateMember (GuildID_ guild) (UserID me) with
              | Err err =>
                  DisplayErr StatusInternalServerError
                    (Some (ErrorString
                             ("error fetching self as member: " ++ ErrorText err)))
              | Ok selfMember =>
                  Render "guild.gohtml"
                    (mkGuildCtx guild
                       (SliceStable moreRecent (forumChannels guild selfMember chans))
                       URL)
              end
          end
      end
  end.

End GuildHandlers.

(** ** executeTemplate and its pool of buffers *)

Section ExecuteTemplate.

Import Errors Http.

(** The type of the template contexts, the template function of the
    server (the bytes it writes and its error) and [crc32.ChecksumIEEE]. *)
Context {C : Type}.
Variable executeTemplateFn : string -> C -> string * option error.
Variable ChecksumIEEE : string -> Z.

Definition hexDigit (d : Z) : ascii :=
  ascii_of_N (Z.to_N (if d <? 10 then 48 + d else 87 + d)).

(** The verb [%x] on an unsigned number of at most [fuel] hexadecimal
    digits: lower case, no padding. *)
Fixpoint hex (fuel : nat) (n : Z) (acc : string) : string :=
  match fuel with
  | O => acc
  | S fuel =>
      let acc := String (hexDigit (n mod 16)) acc in
      if n / 16 =? 0 then acc else hex fuel (n / 16) acc
  end.

(** [fmt.Sprintf("\"%x\"", checksum)] for a [uint32]. *)
Definition etagOf (checksum : Z) : string :=
  String.append (String "034" (hex 8 checksum "")) (String "034" "").

(** What [executeTemplate] does to the response: the content it hands to
    [http.ServeContent] with the [ETag] it set, or the error page. *)
Inductive Served : Type :=
| ServeContent (name etag content : string)
| ErrorPage (status : Z) (err : error).

(** The buffers of [s.buffers], each with what it holds. *)
Definition Pool : Type := list string.

(** [sync.Pool.Get]: any buffer of the pool, here the one at [pick], or a
    new, empty one. *)
Definition poolGet (pool : Pool) (pick : nat) : string * Pool :=
  match pool !! pick with
  | Some buf => (buf, delete pick pool)
  | None => (EmptyString, pool)
  end.

(** Lines 104-118. *)
Definition executeTemplate (pool : Pool) (pick : nat) (name : string) (ctx : C)
    : Served * Pool :=
  let '(buf, pool) := poolGet pool pick in
  let '(out, err) := executeTemplateFn name ctx in
  let buf := String.append buf out in
  let served :=
    match err with
    | None => ServeContent name (etagOf (ChecksumIEEE buf)) buf
    | Some err => ErrorPage StatusInternalServerError err
    end in
  let buf := EmptyString in
  (served, buf :: pool).

(** A run of requests, each with the buffer the pool picks for it. *)
Fixpoint executeAll (pool : Pool) (reqs : list (nat * string * C))
    : list Served * Pool :=
  match reqs with
  | [] => ([], pool)
  | (pick, name, ctx) :: reqs =>
      let '(served, pool) := executeTemplate pool pick name ctx in
      let '(rest, pool) := executeAll pool reqs in
      (served :: rest, pool)
  end.

End ExecuteTemplate.

(** ** The vocabulary of the further properties *)

Section MoreVocabulary.

Import Errors Http Discord.
Context {RAuthor RMessage : Type}.
Variable s : @Collab RAuthor RMessage.

(** The statuses of the error pages. *)
Definition lookupStatus (status : Z) : Prop :=
  status = 400 \/ status = 403 \/ status = 404 \/ status = 500.

(** The fetch of a request: [MessagesAfter] unless the request pages
    before a cursor. *)
Definition fetchOf (r : Request) (post : Channel) (cur : Snowflake)
    : list Message * bool * bool * option error :=
  if (cursorOf r).1 then MessagesAfter s (ID post) cur 25
  else MessagesBefore s (ID post) cur 25.

(** The parts of a fetch result besides its messages. *)
Definition reportsBefore (res : list Message * bool * bool * option error) : bool :=
  res.1.1.2.
Definition reportsAfter (res : list Message * bool * bool * option error) : bool :=
  res.1.2.
Definition fetchError (res : list Message * bool * bool * option error)
    : option error := res.2.

(** A response to a request for a post, with the forum of its context
    replaced. *)
Definition inForum (forum : Channel) (resp : Response (@PostCtx RAuthor RMessage))
    : Response (@PostCtx RAuthor RMessage) :=
  match resp with
  | Render name ctx =>
      Render name
        (mkPostCtx (PGuild ctx) forum (PPost ctx) (PPrev ctx) (PNext ctx)
           (MessageGroups ctx) (PURL ctx))
  | other => other
  end.

End MoreVocabulary.

(** Permissions that include View Channel (bit 10) and Read Message History
    (bit 16). *)
Definition canRead (perms : Z) : Prop :=
  Z.testbit perms 10 = true /\ Z.testbit perms 16 = true.

#[export] Instance canRead_dec perms : Decision (canRead perms).
Proof. unfold canRead. apply _. Defined.

(** The sum of a list of numbers. *)
Definition total (l : list Z) : Z := foldr Z.add 0 l.

(** ** A guild with several forums *)

Module Community.

Import Errors Discord.

(** A second forum with a last message of its own, and an NSFW forum. *)
Definition forum6 : Channel :=
  mkChannel 6 1 0 GuildForum 0 false (Z.shiftl 30 22) [] [].
Definition forum9 : Channel :=
  mkChannel 9 1 0 GuildForum 0 true 0 [] [].
Definition post7 : Channel :=
  mkChannel 7 1 6 GuildPublicThread 0 false (Z.shiftl 5 22) [] [].

Definition chans : list Channel :=
  [Fixture.forum2; Fixture.post3; forum6; Fixture.post4; post7; forum9;
   Fixture.thread5].

Definition server : @Collab User Message :=
  mkCollab
    (CabinetGuild Fixture.plain)
    (fun id => if id =? 2 then Ok Fixture.forum2
               else if id =? 6 then Ok forum6
               else if id =? 9 then Ok forum9
               else Err Fixture.notFound)
    (StateChannel Fixture.plain)
    (fun _ => Ok chans)
    (fun _ _ _ => (Fixture.thread, true, true, None))
    (fun _ _ _ => (Fixture.thread, true, true, None))
    (fun _ _ => None)
    Author
    (fun m => m).

Definition bot : User := mkUser 99 "bot".

(** The bot may view every forum and read the history of all but forum 9. *)
Definition botPerms (g : Guild) (forum : Channel) (selfMember : unit) : Z :=
  if ID forum =? 9 then Z.shiftl 1 10 else Z.lor (Z.shiftl 1 16) (Z.shiftl 1 10) + 1.

Definition counts (c : Channel) : Z := ID c * 10.

Definition request (guild forum post : string) : Request :=
  mkRequest guild forum post "" "" "".

(** The guild page of the community. *)
Definition guildPage : Response GuildCtx :=
  getGuild server "" (Some bot) (fun _ _ => Ok tt) botPerms counts
    (fun _ => "error"%string) (request "1" "" "").

End Community.

(** The context of a response that executes a template, [d] otherwise. *)
Definition contextOf {C : Type} (resp : Response C) (d : C) : C :=
  match resp with
  | Render _ ctx => ctx
  | _ => d
  end.

(** The context of the page of post 3 after message 99, fetched from the
    middle of the thread. *)
Definition middleCtx : @PostCtx Discord.User Discord.Message :=
  contextOf
    (getPost Discord.UserID middlePage "" (Fixture.request "3" "" "99" "")).1
    (mkPostCtx Fixture.guild1 Fixture.forum2 Fixture.post3 0 0 [] "").

(** The context of the guild page of the community. *)
Definition communityCtx : GuildCtx :=
  contextOf Community.guildPage (mkGuildCtx Fixture.guild1 [] "").

(** The fixture over the modelled cache after the arrivals: channel 3 holds
    the messages 100 to 103. *)
Definition cachedThread : @Collab Discord.User Discord.Message :=
  withCache Fixture.plain restOpen (MessageCache.run ∅ arrivals).1.

(** Thirty messages arrive in channel 3; later the five newest are
    deleted. *)
Definition thirtyArrive : list MessageCache.Op :=
  (fun m => MessageCache.OpEvent (Gateway.MessageCreateEvent m)) <$> numbered 30.
Definition newestDeleted : list MessageCache.Op :=
  (fun i => MessageCache.OpEvent (Gateway.MessageDeleteEvent (Z.of_nat i) 3 1))
    <$> seq 26 5.

(** * Properties *)

(** ** Go integers *)

Lemma wrap64_id z : GoInt.inRange z -> GoInt.wrap64 z = z.
Proof.
  unfold GoInt.inRange, GoInt.minInt, GoInt.maxInt, GoInt.wrap64. intros Hz.
  rewrite Z.mod_small; lia.
Qed.

Lemma wrap64_range z : GoInt.inRange (GoInt.wrap64 z).
Proof.
  unfold GoInt.inRange, GoInt.minInt, GoInt.maxInt, GoInt.wrap64.
  pose proof (Z.mod_pos_bound (z + 2 ^ 63) (2 ^ 64)). lia.
Qed.

(** ** Numbers that are refused *)

Lemma digit_nonneg c d : Strconv.digit c = Some d -> 0 <= d <= 9.
Proof.
  unfold Strconv.digit.
  destruct (Z.leb_spec 48 (Z.of_N (N_of_ascii c))); cbn [andb]; [|done].
  destruct (Z.leb_spec (Z.of_N (N_of_ascii c)) 57); [|done].
  intros [= <-]. lia.
Qed.

Lemma digits_grow s : forall n v, 0 <= n -> Strconv.digits n s = Some v -> n <= v.
Proof.
  induction s as [|c rest IH]; intros n v Hn; cbn [Strconv.digits].
  - intros [= <-]. lia.
  - destruct (Strconv.digit c) as [d|] eqn:Hd; [|done].
    apply digit_nonneg in Hd. intros Hv. apply IH in Hv; lia.
Qed.

(** The two ways of reading a number agree: the loop of [ParseUint] stops
    with a range error only on digits whose value is out of range, and on
    a run of digits that [ParseUint] refuses it stops with a range error
    unless the run is empty. *)
Lemma uintError_range s : forall n,
  0 <= n ->
  (Strconv.uintError n s = Strconv.ErrRange ->
   forall v, Strconv.digits n s = Some v -> 2 ^ 64 <= v) /\
  (forall v, Strconv.digits n s = Some v -> 2 ^ 64 <= v -> n < 2 ^ 64 ->
             Strconv.uintError n s = Strconv.ErrRange).
Proof.
  induction s as [|c rest IH]; intros n Hn; cbn [Strconv.uintError Strconv.digits].
  - split; [done|]. intros v [= <-]. lia.
  - destruct (Strconv.digit c) as [d|] eqn:Hd; [|done].
    apply digit_nonneg in Hd.
    destruct (Z.ltb_spec (n * 10 + d) (2 ^ 64)) as [Hlt|Hge].
    + destruct (IH (n * 10 + d)) as [H1 H2]; [lia|]. split; [exact H1|].
      intros v Hv Hbig _. by apply (H2 v).
    + split; [|done]. intros _ v Hv. apply digits_grow in Hv; lia.
Qed.

Example parseError_kinds :
  parseError "x1" = Errors.NumError "ParseUint" "x1" Strconv.ErrSyntax /\
  parseError "" = Errors.NumError "ParseUint" "" Strconv.ErrSyntax /\
  parseError "-1" = Errors.NumError "ParseUint" "-1" Strconv.ErrSyntax /\
  parseError "18446744073709551616"
  = Errors.NumError "ParseUint" "18446744073709551616" Strconv.ErrRange /\
  parseError "99999999999999999999x"
  = Errors.NumError "ParseUint" "99999999999999999999x" Strconv.ErrRange /\
  Discord.ParseSnowflake "18446744073709551615" = Some (2 ^ 64 - 1) /\
  Discord.ParseSnowflake "18446744073709551616" = None.
Proof. repeat split; reflexivity. Qed.

(** ** Lookups that fail *)

Section LookupFacts.

Import Errors Http Discord.
Context {RAuthor RMessage : Type}.
Variable AuthorID : RAuthor -> Snowflake.
Variable s : @Collab RAuthor RMessage.
Variable URL : string.

(** The status a failed lookup is answered with. *)
Lemma discordStatusIs_NotFound e :
  discordStatusIs e StatusNotFound = true <-> asHTTPError e = Some 404.
Proof.
  unfold discordStatusIs, StatusNotFound.
  destruct (asHTTPError e) as [st|]; [|split; discriminate].
  rewrite Z.eqb_eq. split; congruence.
Qed.

Lemma guildFromReq_err r id e :
  ParseSnowflake (paramGuildID r) = Some id -> CabinetGuild s id = Err e ->
  guildFromReq s r =
    (inl (if discordStatusIs e StatusNotFound then (StatusNotFound, None)
          else (StatusInternalServerError, Some (Wrapped "fetching guild" e))),
     [CallCabinetGuild id]).
Proof.
  intros Hp He. unfold guildFromReq. rewrite Hp. cbn. rewrite He.
  destruct (discordStatusIs e StatusNotFound); reflexivity.
Qed.

Lemma guildFromReq_ok r id guild :
  ParseSnowflake (paramGuildID r) = Some id -> CabinetGuild s id = Ok guild ->
  guildFromReq s r = (inr guild, [CallCabinetGuild id]).
Proof. intros Hp He. unfold guildFromReq. rewrite Hp. cbn. by rewrite He. Qed.

Lemma forumFromReq_err r id e :
  ParseSnowflake (paramForumID r) = Some id -> CabinetChannel s id = Err e ->
  forumFromReq s r =
    (inl (if discordStatusIs e StatusNotFound then (StatusNotFound, None)
          else (StatusInternalServerError, Some (Wrapped "fetching forum" e))),
     [CallCabinetChannel id]).
Proof.
  intros Hp He. unfold forumFromReq. rewrite Hp. cbn. rewrite He.
  destruct (discordStatusIs e StatusNotFound); reflexivity.
Qed.

Lemma forumFromReq_ok r id forum :
  ParseSnowflake (paramForumID r) = Some id -> CabinetChannel s id = Ok forum ->
  NSFW forum = false ->
  forumFromReq s r = (inr forum, [CallCabinetChannel id]).
Proof.
  intros Hp He Hn. unfold forumFromReq. rewrite Hp. cbn. rewrite He.
  by rewrite Hn.
Qed.

Lemma postFromReq_err r id e :
  ParseSnowflake (paramPostID r) = Some id -> StateChannel s id = Err e ->
  postFromReq s r =
    (inl (if discordStatusIs e StatusNotFound then (StatusNotFound, None)
          else (StatusInternalServerError, Some (Wrapped "fetching post" e))),
     [CallStateChannel id]).
Proof.
  intros Hp He. unfold postFromReq. rewrite Hp. cbn. rewrite He.
  destruct (discordStatusIs e StatusNotFound); reflexivity.
Qed.

Lemma postFromReq_ok r id post :
  ParseSnowflake (paramPostID r) = Some id -> StateChannel s id = Ok post ->
  postFromReq s r = (inr post, [CallStateChannel id]).
Proof. intros Hp He. unfold postFromReq. rewrite Hp. cbn. by rewrite He. Qed.

(** The status and the error a failed lookup is answered with. *)
Lemma lookup_answer (pre : string) (e : error) :
  let f : Failure :=
    if discordStatusIs e StatusNotFound then (StatusNotFound, None)
    else (StatusInternalServerError, Some (Wrapped pre e)) in
  (f.1 = 404 <-> asHTTPError e = Some 404) /\
  (f.1 = 500 <-> asHTTPError e <> Some 404).
Proof.
  pose proof (discordStatusIs_NotFound e) as Hnf.
  destruct (discordStatusIs e StatusNotFound); cbn;
    unfold StatusNotFound, StatusInternalServerError.
  - assert (asHTTPError e = Some 404) by (by apply Hnf).
    split; split; intros; congruence.
  - assert (asHTTPError e <> Some 404).
    { intros Hc. apply Hnf in Hc. discriminate. }
    split; split; intros; congruence.
Qed.

(** C7. When the guild, forum or post lookup of a request fails with an
    upstream error [e], the handler answers with an error page and makes
    no further call: the failing lookup is the last call and was made
    once.  The status is 404 exactly when [e] carries HTTP status 404 and
    500 for every other error.  [getPost] runs the three lookups,
    [getForum] the first two. *)
Theorem lookup_failure_status (r : Request) (which : Lookup) (e : error)
    (calls : list Call) :
  lookupFails s r which e calls ->
  (exists status err,
      getPost AuthorID s URL r = (DisplayErr status err, calls) /\
      (status = 404 <-> asHTTPError e = Some 404) /\
      (status = 500 <-> asHTTPError e <> Some 404)) /\
  (which <> PostLookup ->
   exists status err,
      getForum s URL r = (DisplayErr status err, calls) /\
      (status = 404 <-> asHTTPError e = Some 404) /\
      (status = 500 <-> asHTTPError e <> Some 404)).
Proof.
  intros [gid e' Hg He|gid guild fid e' Hg Hgok Hf He
         |gid guild fid forum pid e' Hg Hgok Hf Hfok Hn Hp He].
  - split; [|intros _]; eexists _, _;
      (split; [|apply (lookup_answer "fetching guild")]).
    + unfold getPost, orReturn. rewrite (guildFromReq_err _ _ _ Hg He).
      reflexivity.
    + unfold getForum, orReturn. rewrite (guildFromReq_err _ _ _ Hg He).
      reflexivity.
  - split; [|intros _]; eexists _, _;
      (split; [|apply (lookup_answer "fetching forum")]).
    + unfold getPost, orReturn. rewrite (guildFromReq_ok _ _ _ Hg Hgok).
      cbn. rewrite (forumFromReq_err _ _ _ Hf He). reflexivity.
    + unfold getForum, orReturn. rewrite (guildFromReq_ok _ _ _ Hg Hgok).
      cbn. rewrite (forumFromReq_err _ _ _ Hf He). reflexivity.
  - split; [|done]. eexists _, _.
    split; [|apply (lookup_answer "fetching post")].
    unfold getPost, orReturn. rewrite (guildFromReq_ok _ _ _ Hg Hgok).
    cbn. rewrite (forumFromReq_ok _ _ _ Hf Hfok Hn).
    cbn. rewrite (postFromReq_err _ _ _ Hp He). reflexivity.
Qed.

End LookupFacts.

(** ** Gateway events *)

(** C4. The three handlers of [newServer] map a message-create event to
    [Set] with the edited marker false, a message-update event to [Set]
    with the marker true and a message-delete event to [Remove] with the
    event's channel and message identifiers, for every cache; on the
    recording cache each of these events leaves exactly that one mutation,
    and any other event leaves none. *)
Theorem handlers_map_events_to_cache_ops :
  (forall (T : Type) (ops : CacheOps T) (c : T),
      (forall m, dispatch newServerHandlers (Gateway.MessageCreateEvent m) c
                 = Set_ m false c) /\
      (forall m, dispatch newServerHandlers (Gateway.MessageUpdateEvent m) c
                 = Set_ m true c) /\
      (forall id channelID guildID,
          dispatch newServerHandlers
            (Gateway.MessageDeleteEvent id channelID guildID) c
          = Remove channelID id c) /\
      (forall kind, dispatch newServerHandlers (Gateway.OtherEvent kind) c = c)) /\
  (forall (e : Gateway.Event) (log : list CacheOp),
      dispatch newServerHandlers e log =
      log ++ match e with
             | Gateway.MessageCreateEvent m => [OpSet m false]
             | Gateway.MessageUpdateEvent m => [OpSet m true]
             | Gateway.MessageDeleteEvent id channelID _ => [OpRemove channelID id]
             | Gateway.OtherEvent _ => []
             end).
Proof.
  split.
  - intros T ops c. repeat split; intros; reflexivity.
  - intros [m|m|id channelID guildID|kind] log; cbn; try reflexivity.
    by rewrite app_nil_r.
Qed.

(** ** Forum pages *)

Section ForumFacts.

Import Errors Http Discord.
Context {RAuthor RMessage : Type}.
Variable s : @Collab RAuthor RMessage.
Variable URL : string.

Lemma collectPosts_acc forum chans acc :
  fold_left
    (fun posts thread =>
       if negb (ParentID thread =? ID forum)
          || negb (Type_ thread =? GuildPublicThread)
       then posts
       else posts ++ [mkPost thread (postTags forum thread)])
    chans acc
  = acc ++ ((fun t => mkPost t (postTags forum t)) <$> filter (isPostOf forum) chans).
Proof.
  revert acc. induction chans as [|t chans IH]; intros acc.
  - cbn. by rewrite app_nil_r.
  - rewrite filter_cons. cbn [fold_left]. rewrite IH.
    destruct (Z.eqb_spec (ParentID t) (ID forum)) as [Hp|Hp];
      destruct (Z.eqb_spec (Type_ t) GuildPublicThread) as [Ht|Ht]; cbn [negb orb].
    + rewrite decide_True by (by split). rewrite fmap_cons. by rewrite <- app_assoc.
    + rewrite decide_False by (by intros [? ?]). done.
    + rewrite decide_False by (by intros [? ?]). done.
    + rewrite decide_False by (by intros [? ?]). done.
Qed.

(** The collected posts are the public threads of the forum in the order
    of the channel list. *)
Lemma collectPosts_filter forum chans :
  collectPosts forum chans
  = (fun t => mkPost t (postTags forum t)) <$> filter (isPostOf forum) chans.
Proof. unfold collectPosts. by rewrite collectPosts_acc. Qed.

Lemma signed_range neg t v : Strconv.signed neg t = Some v -> GoInt.inRange v.
Proof.
  unfold Strconv.signed. destruct t as [|c t]; [discriminate|].
  destruct (Strconv.digits 0 (String c t)) as [w|]; [|discriminate].
  cbn zeta.
  destruct ((GoInt.minInt <=? (if neg then - w else w))
            && ((if neg then - w else w) <=? GoInt.maxInt)) eqn:Hr;
    [|discriminate].
  intros [= <-]. apply andb_true_iff in Hr as [H1 H2].
  apply Z.leb_le in H1, H2. done.
Qed.

Lemma Atoi_range param page :
  Strconv.Atoi param = Some page -> GoInt.inRange page.
Proof.
  unfold Strconv.Atoi. destruct param as [|c t]; [discriminate|].
  destruct (Ascii.eqb c "+"); [apply signed_range|].
  destruct (Ascii.eqb c "-"); apply signed_range.
Qed.

(** The page number is at least 1 and an [int], whatever the parameter. *)
Lemma pageOf_range param : 1 <= pageOf param <= GoInt.maxInt.
Proof.
  unfold pageOf. destruct (Strconv.Atoi param) as [page|] eqn:Ha.
  - apply Atoi_range in Ha. unfold GoInt.inRange in Ha.
    destruct (Z.ltb_spec page 1); unfold GoInt.maxInt in *; lia.
  - unfold GoInt.maxInt. lia.
Qed.

(** The two bounds of the page's slice, as Go computes them, are 25 apart
    unless the multiplication wrapped between them. *)
Lemma page_bounds page :
  1 <= page <= GoInt.maxInt ->
  let lo := GoInt.mul (GoInt.sub page 1) 25 in
  let hi := GoInt.mul page 25 in
  GoInt.inRange lo /\ GoInt.inRange hi /\ (hi = lo + 25 \/ hi = lo + 25 - 2 ^ 64).
Proof.
  intros Hp lo hi. subst lo hi. unfold GoInt.mul, GoInt.sub.
  rewrite (wrap64_id (page - 1))
    by (unfold GoInt.inRange, GoInt.minInt, GoInt.maxInt in *; lia).
  split; [apply wrap64_range|]. split; [apply wrap64_range|].
  unfold GoInt.wrap64.
  pose proof (Z.div_mod ((page - 1) * 25 + 2 ^ 63) (2 ^ 64) ltac:(lia)) as H1.
  pose proof (Z.div_mod (page * 25 + 2 ^ 63) (2 ^ 64) ltac:(lia)) as H2.
  pose proof (Z.mod_pos_bound ((page - 1) * 25 + 2 ^ 63) (2 ^ 64) ltac:(lia)).
  pose proof (Z.mod_pos_bound (page * 25 + 2 ^ 63) (2 ^ 64) ltac:(lia)).
  lia.
Qed.

Lemma slice_some {A} (l : list A) lo hi r :
  slice l lo hi = Some r ->
  0 <= lo <= hi /\ hi <= len l /\ r = take (Z.to_nat (hi - lo)) (drop (Z.to_nat lo) l).
Proof.
  unfold slice.
  destruct (Z.leb_spec 0 lo); destruct (Z.leb_spec lo hi);
    destruct (Z.leb_spec hi (len l)); cbn; intros [= <-]; auto with lia.
Qed.

Lemma slice_ok {A} (l : list A) lo hi :
  0 <= lo <= hi -> hi <= len l ->
  slice l lo hi = Some (take (Z.to_nat (hi - lo)) (drop (Z.to_nat lo) l)).
Proof.
  intros [H1 H2] H3. unfold slice.
  destruct (Z.leb_spec 0 lo); destruct (Z.leb_spec lo hi);
    destruct (Z.leb_spec hi (len l)); cbn; auto; lia.
Qed.

(** Whatever the page number, a page that does not panic holds the 25
    posts that follow the lower bound of its slice. *)
Lemma paginate_some ctx posts page ctx' posts' :
  1 <= page <= GoInt.maxInt ->
  paginate ctx posts page = Some (ctx', posts') ->
  posts' = take 25 (drop (Z.to_nat (GoInt.mul (GoInt.sub page 1) 25)) posts).
Proof.
  intros Hp. destruct (page_bounds page Hp) as (Hlo & Hhi & Hstep).
  unfold paginate. set (lo := GoInt.mul (GoInt.sub page 1) 25) in *.
  set (hi := GoInt.mul page 25) in *.
  unfold GoInt.inRange, GoInt.minInt, GoInt.maxInt in *.
  destruct (Z.gtb_spec (len posts) hi) as [Hn|Hn].
  - destruct (slice posts lo hi) as [r|] eqn:Hs; [|discriminate].
    cbn. intros [= _ <-]. apply slice_some in Hs as (Hb & _ & ->).
    replace (Z.to_nat (hi - lo)) with 25%nat by lia. done.
  - destruct (Z.geb_spec (len posts) lo) as [Hm|Hm].
    + destruct (slice posts lo (len posts)) as [r|] eqn:Hs; [|discriminate].
      cbn. intros [= _ <-]. apply slice_some in Hs as (Hb & _ & ->).
      unfold len in *.
      rewrite !take_ge; [done | | ]; rewrite length_drop; lia.
    + intros [= _ <-]. unfold len in *.
      rewrite drop_ge by lia. done.
Qed.

Lemma paginate_at_most_25 ctx posts page ctx' posts' :
  1 <= page <= GoInt.maxInt ->
  paginate ctx posts page = Some (ctx', posts') -> (length posts' <= 25)%nat.
Proof.
  intros Hp Hpg. rewrite (paginate_some _ _ _ _ _ Hp Hpg), length_take. lia.
Qed.

(** A page number whose bounds do not overflow: [Prev], [Next] and the
    slice are those of the page, and no slice expression panics. *)
Lemma paginate_in_range ctx posts page :
  1 <= page -> page * 25 <= GoInt.maxInt ->
  paginate ctx posts page =
    Some (mkForumCtx (FGuild ctx) (FForum ctx) (FPosts ctx)
            (if page >? 1 then page - 1 else FPrev ctx)
            (if len posts >? page * 25 then page + 1 else FNext ctx)
            (FURL ctx),
          take 25 (drop (Z.to_nat ((page - 1) * 25)) posts)).
Proof.
  intros H1 H25. unfold paginate, GoInt.mul, GoInt.sub, GoInt.add.
  rewrite (wrap64_id (page - 1))
    by (unfold GoInt.inRange, GoInt.minInt, GoInt.maxInt in *; lia).
  rewrite (wrap64_id (page + 1))
    by (unfold GoInt.inRange, GoInt.minInt, GoInt.maxInt in *; lia).
  rewrite (wrap64_id (page * 25))
    by (unfold GoInt.inRange, GoInt.minInt, GoInt.maxInt in *; lia).
  rewrite (wrap64_id ((page - 1) * 25))
    by (unfold GoInt.inRange, GoInt.minInt, GoInt.maxInt in *; lia).
  destruct (Z.gtb_spec (len posts) (page * 25)) as [Hn|Hn].
  - rewrite slice_ok by lia. cbn.
    replace (Z.to_nat (page * 25 - (page - 1) * 25)) with 25%nat by lia.
    destruct (page >? 1); destruct ctx; reflexivity.
  - destruct (Z.geb_spec (len posts) ((page - 1) * 25)) as [Hm|Hm].
    + rewrite slice_ok by lia. cbn. unfold len in *.
      rewrite !take_ge by (rewrite length_drop; lia).
      destruct (page >? 1); destruct ctx; reflexivity.
    + unfold len in *. rewrite drop_ge by lia.
      destruct (page >? 1); destruct ctx; reflexivity.
Qed.

(** [ctx.Posts] is still empty when line 287 sorts it, so the sort leaves
    the collected posts as they are: past the lookups, [getForum] is the
    pagination of the collected posts. *)
Lemma getForum_after_lookups r guild forum chans t1 t2 :
  guildFromReq s r = (inr guild, t1) ->
  forumFromReq s r = (inr forum, t2) ->
  channels s (GuildID_ guild) = Ok chans ->
  getForum s URL r =
    (match paginate (mkForumCtx guild forum [] 0 0 URL)
             (collectPosts forum chans) (pageOf (paramPage r)) with
     | None => Panic
     | Some (ctx, posts) => Render "forum.gohtml" (setPosts ctx posts)
     end,
     t1 ++ t2 ++ [CallChannels (GuildID_ guild)]).
Proof.
  intros Hg Hf Hc. unfold getForum, orReturn. rewrite Hg. cbn [bind].
  rewrite Hf. cbn [bind call]. rewrite Hc.
  change (SliceStable postLess (FPosts (mkForumCtx guild forum [] 0 0 URL)))
    with (@nil Post).
  change (setPosts (mkForumCtx guild forum [] 0 0 URL) [])
    with (mkForumCtx guild forum [] 0 0 URL).
  destruct (paginate _ _ _) as [[ctx posts]|]; cbn; by rewrite ?app_nil_r.
Qed.

(** C9. Past the lookups, the posts [getForum] hands to the template are
    the public threads of the forum in the order of the channel list, cut
    to the 25 that follow the page's lower bound; the sort of line 287 has
    no part in it.  The page is rendered whenever its bounds do not
    overflow. *)
Theorem getForum_posts_in_collected_order r guild forum chans t1 t2 :
  guildFromReq s r = (inr guild, t1) ->
  forumFromReq s r = (inr forum, t2) ->
  channels s (GuildID_ guild) = Ok chans ->
  let page := pageOf (paramPage r) in
  let collected :=
    (fun t => mkPost t (postTags forum t)) <$> filter (isPostOf forum) chans in
  (forall name ctx,
      (getForum s URL r).1 = Render name ctx ->
      FPosts ctx
      = take 25 (drop (Z.to_nat (GoInt.mul (GoInt.sub page 1) 25)) collected)) /\
  (page * 25 <= GoInt.maxInt ->
   exists ctx,
     (getForum s URL r).1 = Render "forum.gohtml" ctx /\
     FPosts ctx = take 25 (drop (Z.to_nat ((page - 1) * 25)) collected)).
Proof.
  intros Hg Hf Hc page collected.
  rewrite (getForum_after_lookups _ _ _ _ _ _ Hg Hf Hc).
  rewrite collectPosts_filter. fold collected. fold page. cbn [fst].
  pose proof (pageOf_range (paramPage r)) as Hp. fold page in Hp.
  split.
  - intros name ctx.
    destruct (paginate _ collected page) as [[ctx' posts']|] eqn:Hpg;
      [|discriminate].
    intros [= _ <-]. cbn. by eapply paginate_some.
  - intros H25. rewrite paginate_in_range by lia. eexists. split; [done|].
    reflexivity.
Qed.

End ForumFacts.

(** ** Witnesses and evaluations on the fixture *)

Lemma lookup_failure_status_witness :
  exists status err,
    getPost Discord.UserID Fixture.plain "" (Fixture.request "8" "" "" "")
    = (DisplayErr status err,
       [CallCabinetGuild 1; CallCabinetChannel 2; CallStateChannel 8]) /\
    (status = 404 <-> Errors.asHTTPError Fixture.notFound = Some 404) /\
    (status = 500 <-> Errors.asHTTPError Fixture.notFound <> Some 404).
Proof.
  apply (lookup_failure_status Discord.UserID Fixture.plain ""
           (Fixture.request "8" "" "" "") PostLookup Fixture.notFound).
  apply (PostFails Fixture.plain _ 1 Fixture.guild1 2 Fixture.forum2 8);
    reflexivity.
Defined.

(** An unknown post is answered with 404, a post whose lookup fails in
    another way with 500. *)
Example getPost_lookup_statuses :
  (getPost Discord.UserID Fixture.plain "" (Fixture.request "8" "" "" "")).1
  = DisplayErr 404 None /\
  (getPost Discord.UserID Fixture.plain "" (Fixture.request "7" "" "" "")).1
  = DisplayErr 500
      (Some (Errors.Wrapped "fetching post" (Errors.ErrorString "connection reset"))).
Proof. split; reflexivity. Qed.

Lemma getForum_posts_in_collected_order_witness :
  exists ctx,
    (getForum Fixture.plain "" (Fixture.request "" "1" "" "")).1
    = Render "forum.gohtml" ctx /\
    FPosts ctx = [mkPost Fixture.post3 [Fixture.tagDone]; mkPost Fixture.post4 []].
Proof.
  destruct (getForum_posts_in_collected_order Fixture.plain ""
              (Fixture.request "" "1" "" "") Fixture.guild1 Fixture.forum2
              Fixture.chans [CallCabinetGuild 1] [CallCabinetChannel 2]
              eq_refl eq_refl eq_refl) as [_ Hrender].
  destruct Hrender as (ctx & Hctx & Hposts); [vm_compute; discriminate|].
  exists ctx. split; [exact Hctx|]. rewrite Hposts. reflexivity.
Defined.

(** The pinned, newer post stays behind the unpinned, older one. *)
Example getForum_keeps_channel_order :
  FPosts <$> (match (getForum Fixture.plain "" (Fixture.request "" "" "" "")).1 with
              | Render _ ctx => Some ctx
              | _ => None
              end)
  = Some [mkPost Fixture.post3 [Fixture.tagDone]; mkPost Fixture.post4 []]
  /\ postLess (mkPost Fixture.post4 []) (mkPost Fixture.post3 [Fixture.tagDone]) = true.
Proof. split; reflexivity. Qed.

(** C10. The page number 368934881474191033 is accepted by [strconv.Atoi],
    its upper bound [page*25] wraps around to a negative [int], the guard
    [len(posts) > page*25] holds for every list of posts and the slice
    expression of line 302 panics: nothing is returned for this page. *)
Theorem getForum_page_overflow_panics :
  pageOf "368934881474191033" = 368934881474191033 /\
  GoInt.mul 368934881474191033 25 = -9223372036854775791 /\
  (forall (ctx : ForumCtx) (posts : list Post),
      paginate ctx posts 368934881474191033 = None) /\
  (getForum Fixture.plain ""
     (Fixture.request "" "368934881474191033" "" "")).1 = Panic.
Proof.
  split; [reflexivity|]. split; [reflexivity|]. split; [|reflexivity].
  intros ctx posts. unfold paginate.
  change (GoInt.mul 368934881474191033 25) with (-9223372036854775791).
  change (GoInt.mul (GoInt.sub 368934881474191033 1) 25)
    with 9223372036854775800.
  destruct (Z.gtb_spec (len posts) (-9223372036854775791)) as [_|Hn];
    [reflexivity|unfold len in Hn; lia].
Qed.

(** ** Message groups *)

Lemma adjacentDistinct_snoc ids x :
  adjacentDistinct ids -> last ids <> Some x -> adjacentDistinct (ids ++ [x]).
Proof.
  intros Hadj Hlast k a b Ha Hb.
  destruct (decide (S k < length ids)%nat) as [Hlt|Hge].
  - rewrite lookup_app_l in Ha by lia. rewrite lookup_app_l in Hb by lia.
    by eapply Hadj.
  - assert (S k = length ids) as Hk.
    { apply lookup_lt_Some in Hb. rewrite length_app in Hb. cbn in Hb. lia. }
    rewrite lookup_app_l in Ha by lia.
    rewrite lookup_app_r in Hb by lia.
    replace (S k - length ids)%nat with 0%nat in Hb by lia. cbn in Hb.
    injection Hb as <-. intros ->. apply Hlast.
    rewrite last_lookup. rewrite <- Hk. cbn. exact Ha.
Qed.

Section GroupFacts.

Import Errors Http Discord.
Context {RAuthor RMessage : Type}.
Variable AuthorID : RAuthor -> Snowflake.
Variable s : @Collab RAuthor RMessage.

(** [s.author] keeps the identifier of the message's author. *)
Hypothesis author_ID : forall m, AuthorID (author s m) = UserID (Author m).

Lemma groupOf_author gid run :
  AuthorID (GAuthor (groupOf s gid run)) = UserID (Author run.1).
Proof. unfold groupOf. cbn. by rewrite author_ID. Qed.

(** An iteration on a state whose index is that of the last group. *)
Lemma groupStep_last gid (grps : list MessageGroup) g m i :
  i = Z.of_nat (length grps) ->
  groupStep AuthorID s gid (grps ++ [g], i) m
  = Some (if negb (AuthorID (GAuthor g) =? UserID (Author m))
          then ((grps ++ [g]) ++ [mkMessageGroup (author s (withGuildID gid m))
                                   [rendered s gid m]], i + 1)
          else (grps ++ [mkMessageGroup (GAuthor g)
                           (Messages g ++ [rendered s gid m])], i)).
Proof.
  intros ->. unfold groupStep.
  destruct (Z.eqb_spec (Z.of_nat (length grps)) (-1)) as [?|_]; [lia|].
  unfold index. destruct (Z.ltb_spec (Z.of_nat (length grps)) 0) as [?|_]; [lia|].
  rewrite Nat2Z.id. rewrite lookup_app_r by done.
  rewrite Nat.sub_diag. cbn [lookup list_lookup mbind option_bind].
  change (UserID (Author (withGuildID gid m))) with (UserID (Author m)).
  destruct (negb _); [done|].
  rewrite insert_app_r_alt by done. by rewrite Nat.sub_diag.
Qed.

(** One iteration: the runs grow by the message, as a new run when the
    author changes and at the end of the last run when it does not. *)
Lemma groupStep_runs gid runs m :
  Forall sameAuthor runs -> adjacentDistinct (headAuthors runs) ->
  exists runs',
    groupStep AuthorID s gid (groupOf s gid <$> runs, len runs - 1) m
    = Some (groupOf s gid <$> runs', len runs' - 1) /\
    Forall sameAuthor runs' /\ adjacentDistinct (headAuthors runs') /\
    concat (runList <$> runs') = concat (runList <$> runs) ++ [m].
Proof.
  intros Hsame Hadj.
  assert (Hnew : Forall sameAuthor (runs ++ [(m, [])])).
  { apply Forall_app. split; [done|]. repeat constructor. }
  destruct runs as [|r0 runs0] using rev_ind.
  - exists [(m, [])]. split; [reflexivity|]. split; [done|]. split; [|done].
    intros k a b Ha Hb. destruct k; discriminate.
  - clear IHruns0. destruct r0 as [h t].
    rewrite fmap_app. cbn [fmap list_fmap].
    rewrite groupStep_last
      by (unfold len; rewrite length_app, length_fmap; cbn; lia).
    rewrite groupOf_author. cbn [fst].
    destruct (Z.eqb_spec (UserID (Author h)) (UserID (Author m))) as [Heq|Hne];
      cbn [negb].
    + exists (runs0 ++ [(h, t ++ [m])]). split; [|split; [|split]].
      * f_equal. f_equal.
        -- rewrite fmap_app. cbn.
           unfold groupOf, runList. cbn. by rewrite fmap_app.
        -- unfold len. rewrite !length_app. cbn. lia.
      * apply Forall_app in Hsame as [Hs0 Hs1]. apply Forall_app. split; [done|].
        rewrite Forall_singleton in Hs1. rewrite Forall_singleton.
        unfold sameAuthor, runList in *. cbn in *.
        rewrite app_comm_cons. apply Forall_app. split; [done|].
        rewrite Forall_singleton. congruence.
      * unfold headAuthors in *. rewrite fmap_app in *. exact Hadj.
      * rewrite !fmap_app, !concat_app. cbn. unfold runList. cbn.
        rewrite !app_nil_r. by rewrite <- app_assoc.
    + exists ((runs0 ++ [(h, t)]) ++ [(m, [])]). split; [|split; [|split]].
      * f_equal. f_equal.
        -- by rewrite !fmap_app.
        -- unfold len. rewrite !length_app. cbn. lia.
      * done.
      * unfold headAuthors. rewrite fmap_app. apply adjacentDistinct_snoc; [done|].
        rewrite fmap_app. cbn. rewrite last_snoc. congruence.
      * rewrite fmap_app, concat_app. cbn. done.
Qed.

(** The loop as a whole, from any state it can be in. *)
Lemma groupLoop_runs gid msgs runs :
  Forall sameAuthor runs -> adjacentDistinct (headAuthors runs) ->
  exists runs',
    fold_left (fun st m => st ← st; groupStep AuthorID s gid st m) msgs
      (Some (groupOf s gid <$> runs, len runs - 1))
    = Some (groupOf s gid <$> runs', len runs' - 1) /\
    Forall sameAuthor runs' /\ adjacentDistinct (headAuthors runs') /\
    concat (runList <$> runs') = concat (runList <$> runs) ++ msgs.
Proof.
  revert runs. induction msgs as [|m msgs IH]; intros runs Hsame Hadj.
  - exists runs. cbn. by rewrite app_nil_r.
  - destruct (groupStep_runs gid runs m Hsame Hadj) as (runs1 & Hstep & Hs1 & Ha1 & Hc1).
    destruct (IH runs1 Hs1 Ha1) as (runs' & Hloop & Hs' & Ha' & Hc').
    exists runs'. cbn [fold_left mbind option_bind]. rewrite Hstep.
    split; [exact Hloop|]. split; [done|]. split; [done|].
    rewrite Hc', Hc1. by rewrite <- app_assoc.
Qed.

(** C3. The groups the loop of [getPost] computes partition the page into
    maximal runs of one author: there are runs of messages which,
    concatenated in order, are the page unchanged; each group renders one
    run; every message of a run has the author identifier of its group;
    and neighbouring groups have different author identifiers. *)
Theorem message_groups_partition (gid : Snowflake) (msgs : list Message) :
  exists (runs : list Run) (msgrps : list MessageGroup),
    groupMessages AuthorID s gid msgs = Some msgrps /\
    msgrps = groupOf s gid <$> runs /\
    concat (runList <$> runs) = msgs /\
    concat (Messages <$> msgrps) = rendered s gid <$> msgs /\
    (forall k run g, runs !! k = Some run -> msgrps !! k = Some g ->
       forall m, m ∈ runList run -> UserID (Author m) = AuthorID (GAuthor g)) /\
    adjacentDistinct ((fun g => AuthorID (GAuthor g)) <$> msgrps).
Proof.
  destruct (groupLoop_runs gid msgs []) as (runs & Hloop & Hsame & Hadj & Hcat).
  { constructor. }
  { intros k a b Ha. destruct k; discriminate. }
  exists runs, (groupOf s gid <$> runs). unfold groupMessages.
  change (Some ([], -1)) with (Some (groupOf s gid <$> [], len (@nil Run) - 1)).
  rewrite Hloop. cbn in Hcat. split; [done|]. split; [done|]. split; [done|].
  split; [|split].
  - rewrite <- Hcat. clear. induction runs as [|run runs IH]; [done|].
    cbn. rewrite fmap_app. f_equal. f_equal. exact IH.
  - intros k run g Hk Hg m Hm. rewrite list_lookup_fmap, Hk in Hg.
    injection Hg as <-. rewrite groupOf_author.
    eapply Forall_lookup_1 in Hsame; [|exact Hk].
    unfold sameAuthor in Hsame. rewrite Forall_forall in Hsame. by apply Hsame.
  - rewrite <- list_fmap_compose.
    rewrite (list_fmap_ext _ (fun run : Run => UserID (Author run.1)) runs);
      [exact Hadj|].
    intros k run _. cbn. apply groupOf_author.
Qed.

End GroupFacts.

(** ** Cursors and failures of getPost *)

Section PostFacts.

Import Errors Http Discord.
Context {RAuthor RMessage : Type}.
Variable AuthorID : RAuthor -> Snowflake.
Variable s : @Collab RAuthor RMessage.
Variable URL : string.

(** The index of the loop is that of the last group, so [msgrps[i]] is
    never read out of range. *)
Lemma groupStep_total gid (grps : list MessageGroup) m :
  exists grps' : list MessageGroup,
    groupStep AuthorID s gid (grps, len grps - 1) m = Some (grps', len grps' - 1).
Proof.
  destruct grps as [|g grps0 _] using rev_ind.
  - exists [mkMessageGroup (author s (withGuildID gid m))
              [message s (withGuildID gid m)]]. reflexivity.
  - rewrite groupStep_last by (unfold len; rewrite length_app; cbn; lia).
    destruct (negb _); eexists; f_equal; f_equal;
      unfold len; rewrite !length_app; cbn; lia.
Qed.

Lemma groupMessages_total gid msgs :
  is_Some (groupMessages AuthorID s gid msgs).
Proof.
  unfold groupMessages.
  change (Some ([], -1))
    with (Some (@nil (@MessageGroup RAuthor RMessage),
                len (@nil (@MessageGroup RAuthor RMessage)) - 1)).
  generalize (@nil (@MessageGroup RAuthor RMessage)).
  induction msgs as [|m msgs IH]; intros grps; cbn [fold_left].
  - by eexists.
  - cbn [mbind option_bind].
    destruct (groupStep_total gid grps m) as (grps' & ->). apply IH.
Qed.

Lemma index_in_bounds {A} (l : list A) i :
  0 <= i < len l -> is_Some (index l i).
Proof.
  intros Hi. unfold index, len in *.
  destruct (Z.ltb_spec i 0); [lia|]. apply lookup_lt_is_Some. lia.
Qed.

Lemma cursors_in_bounds (ctx : @PostCtx RAuthor RMessage) msgs hasbefore hasafter :
  (hasbefore = true -> msgs <> []) ->
  is_Some (cursors ctx msgs hasbefore hasafter).
Proof.
  intros Hinv. unfold cursors.
  assert (Hnext : exists ctx',
    (if hasafter && (len msgs >? 0)
     then m ← index msgs (len msgs - 1); Some (setPNext ctx (MsgID m))
     else Some ctx) = Some ctx').
  { destruct hasafter; cbn [andb]; [|by eexists].
    destruct (Z.gtb_spec (len msgs) 0) as [Hlen|Hlen]; [|by eexists].
    destruct (index_in_bounds msgs (len msgs - 1)) as [m ->]; [lia|].
    by eexists. }
  destruct Hnext as [ctx' ->]. cbn [mbind option_bind].
  destruct hasbefore; [|by eexists].
  destruct (index_in_bounds msgs 0) as [m ->]; [|by eexists].
  specialize (Hinv eq_refl). unfold len. destruct msgs; [done|cbn; lia].
Qed.

(** Without the invariant the read of [msgs[0]] does panic. *)
Lemma cursors_empty_before (ctx : @PostCtx RAuthor RMessage) hasafter :
  cursors ctx [] true hasafter = None.
Proof. unfold cursors. destruct hasafter; reflexivity. Qed.

Lemma renderPost_no_panic guild forum post r :
  fetchInvariant s -> (renderPost AuthorID s URL guild forum post r).1 <> Panic.
Proof.
  intros Hinv. unfold renderPost.
  destruct (cursorOf r) as [asc curstr].
  destruct (if negb (String.eqb curstr "") then ParseSnowflake curstr else Some 0)
    as [cur|]; [|discriminate].
  destruct (Hinv (ID post) cur 25) as [Hafter Hbefore].
  assert (Hres : exists res, nonEmptyBefore res /\
    (if asc
     then call (CallMessagesAfter (ID post) cur 25) (MessagesAfter s (ID post) cur 25)
     else call (CallMessagesBefore (ID post) cur 25) (MessagesBefore s (ID post) cur 25))
    = (res, [if asc then CallMessagesAfter (ID post) cur 25
             else CallMessagesBefore (ID post) cur 25])).
  { destruct asc; eexists; split; try reflexivity; done. }
  destruct Hres as (res & Hne & ->). cbn [bind].
  destruct res as [[[msgs hasbefore] hasafter] err]. cbn in Hne.
  destruct (cursors_in_bounds (mkPostCtx guild forum post 0 0 [] URL)
              msgs hasbefore hasafter Hne) as [ctx ->].
  destruct err as [err|]; [discriminate|]. cbn [bind call].
  destruct (ensureMembers s post msgs) as [err|]; [discriminate|].
  destruct (groupMessages_total (GuildID_ guild) msgs) as [msgrps ->].
  discriminate.
Qed.

(** The part of the cursor reads that [getPost] itself secures: the read
    of [msgs[len(msgs)-1]] for [Next] is guarded by the length test, and
    the read of [msgs[0]] for [Prev] is in bounds for a fetch that does not
    report messages before an empty page.  For collaborators whose fetches
    all are of that kind [getPost] does not panic; that they are is not
    secured by [getPost], see [getPost_panics_on_empty_page_before]. *)
Lemma getPost_no_panic_under_fetchInvariant :
  (forall (ctx : @PostCtx RAuthor RMessage) msgs hasafter,
      is_Some (cursors ctx msgs false hasafter)) /\
  (forall (ctx : @PostCtx RAuthor RMessage) msgs hasbefore hasafter,
      (hasbefore = true -> msgs <> []) ->
      is_Some (cursors ctx msgs hasbefore hasafter)) /\
  (fetchInvariant s -> forall r, (getPost AuthorID s URL r).1 <> Panic).
Proof.
  split; [|split].
  - intros ctx msgs hasafter. by apply cursors_in_bounds.
  - apply cursors_in_bounds.
  - intros Hinv r. unfold getPost, orReturn.
    destruct (guildFromReq s r) as [[f|guild] t1]; cbn [bind]; [discriminate|].
    destruct (forumFromReq s r) as [[f|forum] t2]; cbn [bind]; [discriminate|].
    destruct (postFromReq s r) as [[f|post] t3]; cbn [bind]; [discriminate|].
    pose proof (renderPost_no_panic guild forum post r Hinv) as Hno.
    destruct (renderPost AuthorID s URL guild forum post r) as [resp t4].
    exact Hno.
Qed.

Lemma orReturn_elem {A C} (m : Traced (Failure + A))
    (k : A -> Traced (Response C)) (c : Call) :
  c ∈ (orReturn m k).2 -> c ∈ m.2 \/ exists a, m.1 = inr a /\ c ∈ (k a).2.
Proof.
  unfold orReturn, bind. destruct m as [[f|a] t]; cbn.
  - rewrite app_nil_r. by left.
  - destruct (k a) as [resp t'] eqn:Hk. cbn.
    intros [?|?]%elem_of_app; [by left|right]. exists a. by rewrite Hk.
Qed.

Lemma orReturn_fst {A C} (m : Traced (Failure + A))
    (k : A -> Traced (Response C)) (a : A) :
  m.1 = inr a -> (orReturn m k).1 = (k a).1.
Proof.
  unfold orReturn, bind. destruct m as [o t]; cbn. intros ->.
  by destruct (k a).
Qed.

(** Past the lookups and the message fetch, a failure of [ensureMembers]
    is answered with the error page. *)
Lemma renderPost_members_failure guild forum post r p msgs e :
  CallEnsureMembers p msgs ∈ (renderPost AuthorID s URL guild forum post r).2 ->
  ensureMembers s p msgs = Some e ->
  (renderPost AuthorID s URL guild forum post r).1
  = DisplayErr StatusInternalServerError
      (Some (Wrapped "fetching post's members" e)).
Proof.
  unfold renderPost. destruct (cursorOf r) as [asc curstr].
  destruct (if negb (String.eqb curstr "") then ParseSnowflake curstr else Some 0)
    as [cur|]; [|by intros ?%elem_of_nil].
  assert (Hres : exists res c,
    (if asc
     then call (CallMessagesAfter (ID post) cur 25) (MessagesAfter s (ID post) cur 25)
     else call (CallMessagesBefore (ID post) cur 25) (MessagesBefore s (ID post) cur 25))
    = (res, [c]) /\ forall p ms, c <> CallEnsureMembers p ms).
  { destruct asc; eexists _, _; split; try reflexivity; done. }
  destruct Hres as (res & c & -> & Hc). cbn [bind].
  destruct res as [[[msgs' hasbefore] hasafter] err].
  destruct (cursors _ msgs' hasbefore hasafter) as [ctx|]; cbn.
  2:{ intros [Heq|?%elem_of_nil]%elem_of_cons; [|done].
      exfalso. eapply Hc. symmetry. exact Heq. }
  destruct err as [err|]; cbn.
  { intros [Heq|?%elem_of_nil]%elem_of_cons; [|done].
    exfalso. eapply Hc. symmetry. exact Heq. }
  assert (Hsame : forall t, t = [] ->
    CallEnsureMembers p msgs ∈ c :: CallEnsureMembers post msgs' :: t ->
    p = post /\ msgs = msgs').
  { intros t -> [Heq|[Heq|?%elem_of_nil]%elem_of_cons]%elem_of_cons; [| |done].
    - exfalso. eapply Hc. symmetry. exact Heq.
    - by injection Heq. }
  destruct (ensureMembers s post msgs') as [e'|] eqn:Hem; cbn.
  - intros Hin He. apply (Hsame [] eq_refl) in Hin as [-> ->]. congruence.
  - destruct (groupMessages AuthorID s (GuildID_ guild) msgs'); cbn;
      intros Hin He; apply (Hsame [] eq_refl) in Hin as [-> ->]; congruence.
Qed.

(** C5, as the code has it.  When [ensureMembers] is called during a
    [getPost] request and fails, the failure is surfaced to the caller as
    the error page with status 500 and the error wrapped as ["fetching
    post's members"]; the post template is not rendered. *)
Theorem getPost_members_failure_is_error_page r post msgs e :
  CallEnsureMembers post msgs ∈ (getPost AuthorID s URL r).2 ->
  ensureMembers s post msgs = Some e ->
  (getPost AuthorID s URL r).1
  = DisplayErr StatusInternalServerError
      (Some (Wrapped "fetching post's members" e)).
Proof.
  unfold getPost.
  assert (Hg : forall c, c ∈ (guildFromReq s r).2 ->
                         forall p ms, c <> CallEnsureMembers p ms).
  { unfold guildFromReq. destruct (ParseSnowflake _); cbn.
    - destruct (CabinetGuild s _); [|destruct (discordStatusIs _ _)]; cbn;
        intros c [->|?%elem_of_nil]%elem_of_cons; done.
    - by intros c ?%elem_of_nil. }
  assert (Hf : forall c, c ∈ (forumFromReq s r).2 ->
                         forall p ms, c <> CallEnsureMembers p ms).
  { unfold forumFromReq. destruct (ParseSnowflake _); cbn.
    - destruct (CabinetChannel s _) as [forum|];
        [destruct (NSFW forum)|destruct (discordStatusIs _ _)]; cbn;
        intros c [->|?%elem_of_nil]%elem_of_cons; done.
    - by intros c ?%elem_of_nil. }
  assert (Hp : forall c, c ∈ (postFromReq s r).2 ->
                         forall p ms, c <> CallEnsureMembers p ms).
  { unfold postFromReq. destruct (ParseSnowflake _); cbn.
    - destruct (StateChannel s _); [|destruct (discordStatusIs _ _)]; cbn;
        intros c [->|?%elem_of_nil]%elem_of_cons; done.
    - by intros c ?%elem_of_nil. }
  intros Hin He.
  apply orReturn_elem in Hin as [Hin|(guild & Hguild & Hin)];
    [exfalso; by eapply Hg|].
  apply orReturn_elem in Hin as [Hin|(forum & Hforum & Hin)];
    [exfalso; by eapply Hf|].
  apply orReturn_elem in Hin as [Hin|(post' & Hpost & Hin)];
    [exfalso; by eapply Hp|].
  rewrite (orReturn_fst _ _ _ Hguild), (orReturn_fst _ _ _ Hforum),
    (orReturn_fst _ _ _ Hpost).
  by eapply renderPost_members_failure.
Qed.

End PostFacts.

(** ** A member resolution that fails *)

Lemma membersTimeOut_called :
  CallEnsureMembers Fixture.post3 Fixture.thread
  ∈ (getPost Discord.UserID membersTimeOut "" (Fixture.request "3" "" "" "")).2.
Proof.
  change (getPost Discord.UserID membersTimeOut "" (Fixture.request "3" "" "" "")).2
    with [CallCabinetGuild 1; CallCabinetChannel 2; CallStateChannel 3;
          CallMessagesAfter 3 0 25;
          CallEnsureMembers Fixture.post3 Fixture.thread].
  do 4 apply list_elem_of_further. apply list_elem_of_here.
Qed.

(** C5, counterexample: the member resolution of the request for post 3
    fails, and the answer is the error page, not the post. *)
Lemma members_failure_blocks_render :
  ~ rendersDespiteMemberFailure Discord.UserID membersTimeOut ""
      (Fixture.request "3" "" "" "").
Proof.
  intros Hclaim.
  destruct (Hclaim Fixture.post3 Fixture.thread Fixture.deadline
              membersTimeOut_called eq_refl) as [ctx Hctx].
  discriminate Hctx.
Qed.

Lemma getPost_members_failure_is_error_page_witness :
  (getPost Discord.UserID membersTimeOut "" (Fixture.request "3" "" "" "")).1
  = DisplayErr Http.StatusInternalServerError
      (Some (Errors.Wrapped "fetching post's members" Fixture.deadline)).
Proof.
  apply (getPost_members_failure_is_error_page Discord.UserID membersTimeOut ""
           (Fixture.request "3" "" "" "") Fixture.post3 Fixture.thread
           Fixture.deadline).
  - exact membersTimeOut_called.
  - reflexivity.
Defined.

(** ** Witnesses for the cursors and the groups *)

Lemma middlePage_no_panic :
  (getPost Discord.UserID middlePage "" (Fixture.request "3" "" "99" "")).1
  <> Panic.
Proof.
  apply (getPost_no_panic_under_fetchInvariant Discord.UserID middlePage "").
  intros ch cur limit. split; cbn; intros _; discriminate.
Defined.

Example getPost_middle_page_cursors :
  (fun ctx => (PPrev ctx, PNext ctx)) <$>
    (match (getPost Discord.UserID middlePage ""
              (Fixture.request "3" "" "99" "")).1 with
     | Render _ ctx => Some ctx
     | _ => None
     end)
  = Some (100, 103).
Proof. reflexivity. Qed.

Lemma message_groups_partition_witness :
  exists (runs : list Run) (msgrps : list MessageGroup),
    groupMessages Discord.UserID Fixture.plain 1 Fixture.thread = Some msgrps /\
    msgrps = groupOf Fixture.plain 1 <$> runs /\
    concat (runList <$> runs) = Fixture.thread /\
    concat (Messages <$> msgrps) = rendered Fixture.plain 1 <$> Fixture.thread /\
    (forall k run g, runs !! k = Some run -> msgrps !! k = Some g ->
       forall m, m ∈ runList run ->
                 Discord.UserID (Discord.Author m) = Discord.UserID (GAuthor g)) /\
    adjacentDistinct ((fun g => Discord.UserID (GAuthor g)) <$> msgrps).
Proof.
  exact (message_groups_partition Discord.UserID Fixture.plain
           (fun m => eq_refl) 1 Fixture.thread).
Defined.

(** The page of the fixture falls into three groups. *)
Example groupMessages_thread :
  groupMessages Discord.UserID Fixture.plain 1 Fixture.thread
  = Some [mkMessageGroup Fixture.alice
            [Discord.mkMessage 100 3 1 Fixture.alice "a" false;
             Discord.mkMessage 101 3 1 Fixture.alice "b" false];
          mkMessageGroup Fixture.bob
            [Discord.mkMessage 102 3 1 Fixture.bob "c" false];
          mkMessageGroup Fixture.alice
            [Discord.mkMessage 103 3 1 Fixture.alice "d" false]].
Proof. reflexivity. Qed.

(** ** Member resolution *)

Section MemberFacts.

Import Errors Discord MemberResolver.

(** One call issues at most one member fetch. *)
Lemma ensureMembers_single_fetch fetch st post msgs :
  (length (MemberResolver.ensureMembers fetch st post msgs).1.2 <= 1)%nat.
Proof.
  unfold MemberResolver.ensureMembers.
  destruct (decide (ID post ∈ membersGot st)); cbn; [lia|].
  destruct (fetch _ _); cbn; lia.
Qed.

(** A call that succeeds leaves the channel marked. *)
Lemma ensureMembers_marks fetch st post msgs :
  (MemberResolver.ensureMembers fetch st post msgs).2 = None ->
  ID post ∈ membersGot (MemberResolver.ensureMembers fetch st post msgs).1.1.
Proof.
  unfold MemberResolver.ensureMembers.
  destruct (decide (ID post ∈ membersGot st)); cbn; [done|].
  destruct (fetch _ _); cbn; [set_solver|discriminate].
Qed.

(** C6. Two calls of [ensureMembers] in a row for the same channel and
    messages: when the first succeeds it leaves the channel in
    [membersGot], the second issues no member fetch, succeeds and leaves
    the state as it is, and the two together issue at most one fetch. *)
Theorem ensureMembers_twice_one_fetch (fetch1 fetch2 : Fetch) (st : state)
    (post : Channel) (msgs : list Message) :
  let first := MemberResolver.ensureMembers fetch1 st post msgs in
  let second := MemberResolver.ensureMembers fetch2 first.1.1 post msgs in
  first.2 = None ->
  ID post ∈ membersGot first.1.1 /\
  second.1.2 = [] /\ second.2 = None /\ second.1.1 = first.1.1 /\
  (length (first.1.2 ++ second.1.2) <= 1)%nat.
Proof.
  intros first second Hok.
  pose proof (ensureMembers_marks fetch1 st post msgs Hok) as Hmarked.
  fold first in Hmarked.
  assert (Hsecond : second = (first.1.1, [], None)).
  { subst second. unfold MemberResolver.ensureMembers at 1.
    by rewrite decide_True. }
  rewrite Hsecond. cbn [fst snd]. rewrite app_nil_r.
  repeat split; try done. apply ensureMembers_single_fetch.
Qed.

End MemberFacts.

Lemma ensureMembers_twice_one_fetch_witness :
  let first :=
    MemberResolver.ensureMembers fetchAll noMembers Fixture.post3 Fixture.thread in
  let second :=
    MemberResolver.ensureMembers fetchAll first.1.1 Fixture.post3 Fixture.thread in
  Discord.ID Fixture.post3 ∈ MemberResolver.membersGot first.1.1 /\
  second.1.2 = [] /\ second.2 = None /\ second.1.1 = first.1.1 /\
  (length (first.1.2 ++ second.1.2) <= 1)%nat.
Proof.
  apply (ensureMembers_twice_one_fetch fetchAll fetchAll noMembers
           Fixture.post3 Fixture.thread).
  reflexivity.
Defined.

(** The first call of the fixture fetches the two authors of the page. *)
Example ensureMembers_first_call :
  (MemberResolver.ensureMembers fetchAll noMembers Fixture.post3 Fixture.thread).1.2
  = [MemberResolver.FetchMembers 1 [11; 10]].
Proof. reflexivity. Qed.

(** ** The backfill state machine *)

Section BackfillFacts.

Import Errors Discord MessageCache.

Lemma entry_insert (c : cache) k e ch :
  entry (<[k := e]> c) ch = if decide (k = ch) then e else entry c ch.
Proof.
  unfold entry. destruct (decide (k = ch)) as [->|Hne].
  - by rewrite lookup_insert_eq.
  - by rewrite lookup_insert_ne.
Qed.

Lemma entry_setState st k c ch :
  entry (setState st k c) ch
  = if decide (k = ch) then mkEntry (msgs (entry c k)) st else entry c ch.
Proof. unfold setState. apply entry_insert. Qed.

Lemma entry_merge fetched k c ch :
  entry (merge fetched k c) ch
  = if decide (k = ch)
    then mkEntry (foldr upsert (msgs (entry c k)) fetched) (backfillState (entry c k))
    else entry c ch.
Proof. unfold merge. apply entry_insert. Qed.

(** The events change the messages of a channel and never its state. *)
Lemma dispatch_state e c ch :
  backfillState (entry (dispatch newServerHandlers e c) ch)
  = backfillState (entry c ch).
Proof.
  destruct e as [m|m|id channelID guildID|kind]; cbn; [| | |done].
  - unfold Set_. rewrite entry_insert. by case_decide; subst.
  - unfold Set_. rewrite entry_insert. by case_decide; subst.
  - unfold Remove. rewrite entry_insert. by case_decide; subst.
Qed.

(** A fetch for one channel leaves the state of every other channel. *)
Lemma backfill_other rest c k cur dir limit onOk onErr ch :
  k <> ch ->
  entry (backfill rest c k cur dir limit onOk onErr).1.1 ch = entry c ch.
Proof.
  intros Hne. unfold backfill. destruct (fetchHistory rest k cur dir limit); cbn.
  - rewrite entry_setState, decide_False by done.
    rewrite entry_merge, decide_False by done.
    by rewrite entry_setState, decide_False.
  - rewrite entry_setState, decide_False by done.
    by rewrite entry_setState, decide_False.
Qed.

Lemma backfill_calls rest c k cur dir limit onOk onErr rc :
  rc ∈ (backfill rest c k cur dir limit onOk onErr).1.2 -> restChannel rc = k.
Proof.
  unfold backfill. destruct (fetchHistory rest k cur dir limit); cbn;
    intros [->|?%elem_of_nil]%elem_of_cons; done.
Qed.

Lemma ensureWindow_inactive rest c ch cur dir limit :
  backfillState (entry c ch) = Inactive ->
  ensureWindow rest c ch cur dir limit = (c, [], None).
Proof. unfold ensureWindow. by intros ->. Qed.

Lemma ensureWindow_other rest c k cur dir limit ch :
  k <> ch -> entry (ensureWindow rest c k cur dir limit).1.1 ch = entry c ch.
Proof.
  intros Hne. unfold ensureWindow.
  destruct (backfillState (entry c k)); try done.
  - by apply backfill_other.
  - destruct (covered _ _ _ _); [done|]. by apply backfill_other.
Qed.

Lemma ensureWindow_calls rest c k cur dir limit rc :
  rc ∈ (ensureWindow rest c k cur dir limit).1.2 -> restChannel rc = k.
Proof.
  unfold ensureWindow. destruct (backfillState (entry c k));
    try (by intros ?%elem_of_nil).
  - apply backfill_calls.
  - destruct (covered _ _ _ _); [by intros ?%elem_of_nil|]. apply backfill_calls.
Qed.

Lemma page_cache_calls rest c k cur dir limit :
  (page rest c k cur dir limit).1.2 = (ensureWindow rest c k cur dir limit).1.1 /\
  (page rest c k cur dir limit).2 = (ensureWindow rest c k cur dir limit).1.2.
Proof.
  unfold page. destruct (ensureWindow rest c k cur dir limit) as [[c' calls] err].
  destruct err; [done|]. by destruct (window _ _ _ _) as [[? ?] ?].
Qed.

(** One operation on a cache in which [ch] is inactive: [ch] stays
    inactive and no fetch is issued for it. *)
Lemma step_inactive c op ch :
  backfillState (entry c ch) = Inactive ->
  backfillState (entry (step c op).1 ch) = Inactive /\
  forall rc, rc ∈ (step c op).2 -> restChannel rc <> ch.
Proof.
  intros Hin. destruct op as [rest k cur dir limit|e]; cbn [step].
  - destruct (page_cache_calls rest c k cur dir limit) as [Hc Hcalls].
    destruct (page rest c k cur dir limit) as [[res c'] calls].
    cbn [fst snd] in *. subst c' calls.
    destruct (decide (k = ch)) as [->|Hne].
    + rewrite ensureWindow_inactive by done. cbn. split; [done|].
      by intros rc ?%elem_of_nil.
    + rewrite ensureWindow_other by done. split; [done|].
      intros rc Hrc%ensureWindow_calls. congruence.
  - cbn [fst snd]. rewrite dispatch_state. split; [done|].
    by intros rc ?%elem_of_nil.
Qed.

(** C2. Once a channel is [Inactive], no later operation on the cache,
    a page of this or another channel with any cursor and direction and
    any answer of the REST collaborator, or a gateway event, issues a
    history fetch for the channel, and the channel stays [Inactive]. *)
Theorem inactive_never_fetches (c : cache) (ch : Snowflake) (ops : list Op) :
  backfillState (entry c ch) = Inactive ->
  backfillState (entry (run c ops).1 ch) = Inactive /\
  forall rc, rc ∈ (run c ops).2 -> restChannel rc <> ch.
Proof.
  revert c. induction ops as [|op ops IH]; intros c Hin.
  - cbn. split; [done|]. by intros rc ?%elem_of_nil.
  - cbn [run]. destruct (step_inactive c op ch Hin) as [Hst Hcalls].
    destruct (step c op) as [c1 calls1]. cbn [fst snd] in *.
    destruct (IH c1 Hst) as [Hst' Hcalls'].
    destruct (run c1 ops) as [c2 calls2]. cbn [fst snd] in *.
    split; [done|]. intros rc [?|?]%elem_of_app; auto.
Qed.

End BackfillFacts.

(** ** The order of the cached messages *)

Section OrderFacts.

Import Errors Discord MessageCache.

Lemma ascending_sublist l1 l2 : l1 `sublist_of` l2 -> ascending l2 -> ascending l1.
Proof.
  unfold ascending. induction 1 as [|x l1 l2 Hsub IH|x l1 l2 Hsub IH]; intros Hs.
  - constructor.
  - apply StronglySorted_cons in Hs as [Hall Hs]. constructor; [by apply IH|].
    rewrite Forall_forall in *. intros y Hy. apply Hall.
    by eapply elem_of_sublist.
  - apply StronglySorted_cons in Hs as [_ Hs]. by apply IH.
Qed.

Lemma upsert_elem m l x : x ∈ upsert m l -> x = m \/ x ∈ l.
Proof.
  induction l as [|y l IH]; cbn.
  - intros [->|?%elem_of_nil]%elem_of_cons; [by left|done].
  - destruct (MsgID m <? MsgID y).
    { intros [->|?]%elem_of_cons; [by left|by right]. }
    destruct (MsgID m =? MsgID y).
    { intros [->|?]%elem_of_cons; [by left|right; by apply elem_of_cons; right]. }
    intros [->|Hx]%elem_of_cons; [right; apply list_elem_of_here|].
    destruct (IH Hx); [by left|right; by apply list_elem_of_further].
Qed.

Lemma upsert_ascending m l : ascending l -> ascending (upsert m l).
Proof.
  unfold ascending. induction l as [|y l IH]; intros Hs; cbn.
  - repeat constructor.
  - pose proof Hs as Hs'. apply StronglySorted_cons in Hs' as [Hall Hl].
    destruct (Z.ltb_spec (MsgID m) (MsgID y)) as [Hlt|Hge].
    { constructor; [done|]. constructor; [done|].
      rewrite Forall_forall in *. intros z Hz. specialize (Hall z Hz).
      unfold idLt in *. lia. }
    destruct (Z.eqb_spec (MsgID m) (MsgID y)) as [Heq|Hne].
    { constructor; [done|]. rewrite Forall_forall in *. intros z Hz.
      specialize (Hall z Hz). unfold idLt in *. lia. }
    constructor; [by apply IH|].
    rewrite Forall_forall in *. intros z [->|Hz]%upsert_elem.
    + unfold idLt. lia.
    + by apply Hall.
Qed.

Lemma merge_ascending fetched l : ascending l -> ascending (foldr upsert l fetched).
Proof.
  intros Hl. induction fetched as [|m fetched IH]; cbn; [done|].
  by apply upsert_ascending.
Qed.

(** The page of an ascending sequence is ascending, in both directions. *)
Lemma window_ascending l cur dir limit :
  ascending l -> ascending (window l cur dir limit).1.1.
Proof.
  intros Hl. unfold window. destruct dir; cbn [fst].
  - eapply ascending_sublist; [apply sublist_take|].
    destruct (cur =? 0); [done|].
    eapply ascending_sublist; [apply sublist_filter|done].
  - rewrite take_reverse, reverse_involutive.
    eapply ascending_sublist; [apply sublist_drop|].
    destruct (cur =? 0); [done|].
    eapply ascending_sublist; [apply sublist_filter|done].
Qed.

Lemma wellOrdered_empty : wellOrdered ∅.
Proof. intros ch. unfold entry. rewrite lookup_empty. constructor. Qed.

Lemma wellOrdered_insert c k e :
  wellOrdered c -> ascending (msgs e) -> wellOrdered (<[k := e]> c).
Proof.
  intros Hc He ch. rewrite entry_insert. by case_decide.
Qed.

Lemma Set_wellOrdered m update c : wellOrdered c -> wellOrdered (Set_ m update c).
Proof.
  intros Hc. apply wellOrdered_insert; [done|]. cbn. apply upsert_ascending, Hc.
Qed.

Lemma Remove_wellOrdered channelID id c :
  wellOrdered c -> wellOrdered (Remove channelID id c).
Proof.
  intros Hc. apply wellOrdered_insert; [done|]. cbn.
  eapply ascending_sublist; [apply sublist_filter|apply Hc].
Qed.

Lemma setState_wellOrdered st ch c : wellOrdered c -> wellOrdered (setState st ch c).
Proof. intros Hc. apply wellOrdered_insert; [done|]. cbn. apply Hc. Qed.

Lemma merge_wellOrdered fetched ch c :
  wellOrdered c -> wellOrdered (merge fetched ch c).
Proof.
  intros Hc. apply wellOrdered_insert; [done|]. cbn. apply merge_ascending, Hc.
Qed.

Lemma dispatch_wellOrdered e c :
  wellOrdered c -> wellOrdered (dispatch newServerHandlers e c).
Proof.
  intros Hc. destruct e as [m|m|id channelID guildID|kind]; cbn; [| | |done].
  - by apply Set_wellOrdered.
  - by apply Set_wellOrdered.
  - by apply Remove_wellOrdered.
Qed.

Lemma ensureWindow_wellOrdered rest c ch cur dir limit :
  wellOrdered c -> wellOrdered (ensureWindow rest c ch cur dir limit).1.1.
Proof.
  intros Hc.
  assert (Hb : forall onOk onErr,
    wellOrdered (backfill rest c ch cur dir limit onOk onErr).1.1).
  { intros onOk onErr. unfold backfill.
    destruct (fetchHistory rest ch cur dir limit); cbn;
      auto using setState_wellOrdered, merge_wellOrdered. }
  unfold ensureWindow. destruct (backfillState (entry c ch)); try done.
  destruct (covered _ _ _ _); done.
Qed.

Lemma page_ascending rest c ch cur dir limit :
  wellOrdered c ->
  wellOrdered (page rest c ch cur dir limit).1.2 /\
  ascending (fetched (page rest c ch cur dir limit).1.1).
Proof.
  intros Hc. pose proof (ensureWindow_wellOrdered rest c ch cur dir limit Hc) as Hw.
  unfold page. destruct (ensureWindow rest c ch cur dir limit) as [[c' calls] err].
  cbn [fst] in Hw. destruct err; cbn; [split; [done|constructor]|].
  pose proof (window_ascending (msgs (entry c' ch)) cur dir limit (Hw ch)) as Ha.
  destruct (window _ _ _ _) as [[ms hb] ha]. done.
Qed.

Lemma run_wellOrdered c ops : wellOrdered c -> wellOrdered (run c ops).1.
Proof.
  revert c. induction ops as [|op ops IH]; intros c Hc; [done|].
  cbn [run].
  assert (Hstep : wellOrdered (step c op).1).
  { destruct op as [rest ch cur dir limit|e]; cbn [step].
    - destruct (page_ascending rest c ch cur dir limit Hc) as [Hw _].
      by destruct (page rest c ch cur dir limit) as [[res c'] calls].
    - by apply dispatch_wellOrdered. }
  destruct (step c op) as [c1 calls1]. specialize (IH c1 Hstep).
  by destruct (run c1 ops) as [c2 calls2].
Qed.

End OrderFacts.

(** ** The order of the rendered messages *)

Section RenderedFacts.

Import Errors Http Discord.
Context {RAuthor RMessage : Type}.
Variable AuthorID : RAuthor -> Snowflake.
Variable s : @Collab RAuthor RMessage.
Variable URL : string.

(** An iteration of the grouping loop adds the rendered message at the end
    of the groups' messages, whichever group it goes to. *)
Lemma groupStep_concat gid (grps : list MessageGroup) m :
  exists grps' : list MessageGroup,
    groupStep AuthorID s gid (grps, len grps - 1) m = Some (grps', len grps' - 1) /\
    concat (Messages <$> grps') = concat (Messages <$> grps) ++ [rendered s gid m].
Proof.
  destruct grps as [|g grps0 _] using rev_ind.
  - exists [mkMessageGroup (author s (withGuildID gid m)) [rendered s gid m]].
    split; reflexivity.
  - rewrite groupStep_last by (unfold len; rewrite length_app; cbn; lia).
    destruct (negb _); eexists; (split; [f_equal; f_equal|]);
      try (unfold len; rewrite !length_app; cbn; lia).
    + rewrite fmap_app, concat_app. cbn. done.
    + rewrite !fmap_app, !concat_app. cbn. rewrite !app_nil_r.
      by rewrite <- app_assoc.
Qed.

(** The groups, read in order, are the rendered page. *)
Lemma groupMessages_concat gid msgs :
  exists msgrps,
    groupMessages AuthorID s gid msgs = Some msgrps /\
    concat (Messages <$> msgrps) = rendered s gid <$> msgs.
Proof.
  unfold groupMessages.
  assert (Hloop : forall grps : list (@MessageGroup RAuthor RMessage),
    exists grps',
      fold_left (fun st m => st ← st; groupStep AuthorID s gid st m) msgs
        (Some (grps, len grps - 1)) = Some (grps', len grps' - 1) /\
      concat (Messages <$> grps')
      = concat (Messages <$> grps) ++ (rendered s gid <$> msgs)).
  { induction msgs as [|m msgs IH]; intros grps; cbn [fold_left].
    - exists grps. by rewrite app_nil_r.
    - cbn [mbind option_bind].
      destruct (groupStep_concat gid grps m) as (grps1 & -> & Hc1).
      destruct (IH grps1) as (grps' & Hloop & Hc'). exists grps'.
      split; [done|]. rewrite Hc', Hc1, fmap_cons. by rewrite <- app_assoc. }
  destruct (Hloop []) as (grps' & Hfold & Hc).
  change (Some (@nil (@MessageGroup RAuthor RMessage), len (@nil (@MessageGroup RAuthor RMessage)) - 1))
    with (@Some (list (@MessageGroup RAuthor RMessage) * Z) ([], -1)) in Hfold.
  rewrite Hfold. by exists grps'.
Qed.

(** What a rendered post was made of: the page of the fetch in the
    direction of the request, grouped. *)
Lemma renderPost_rendered guild forum post r name ctx t :
  renderPost AuthorID s URL guild forum post r = (Render name ctx, t) ->
  exists cur res,
    (if (cursorOf r).1 then MessagesAfter s (ID post) cur 25
     else MessagesBefore s (ID post) cur 25) = res /\
    groupMessages AuthorID s (GuildID_ guild) (fetched res)
    = Some (MessageGroups ctx).
Proof.
  unfold renderPost. destruct (cursorOf r) as [asc curstr]. cbn [fst].
  destruct (if negb (String.eqb curstr "") then ParseSnowflake curstr else Some 0)
    as [cur|]; [|discriminate].
  intros Hr. exists cur.
  exists (if asc then MessagesAfter s (ID post) cur 25
          else MessagesBefore s (ID post) cur 25).
  split; [done|].
  assert (Hcall : exists c,
    (if asc
     then call (CallMessagesAfter (ID post) cur 25) (MessagesAfter s (ID post) cur 25)
     else call (CallMessagesBefore (ID post) cur 25) (MessagesBefore s (ID post) cur 25))
    = (if asc then MessagesAfter s (ID post) cur 25
       else MessagesBefore s (ID post) cur 25, [c])).
  { destruct asc; eexists; reflexivity. }
  destruct Hcall as [c Hcall]. rewrite Hcall in Hr. clear Hcall. cbn [bind] in Hr.
  destruct (if asc then MessagesAfter s (ID post) cur 25
            else MessagesBefore s (ID post) cur 25)
    as [[[msgs hasbefore] hasafter] err].
  destruct (cursors _ msgs hasbefore hasafter) as [ctx'|]; [|discriminate].
  destruct err as [err|]; [discriminate|]. cbn [bind call] in Hr.
  destruct (ensureMembers s post msgs) as [err|]; [discriminate|].
  unfold fetched. cbn [fst].
  destruct (groupMessages AuthorID s (GuildID_ guild) msgs) as [msgrps|];
    [|discriminate].
  cbn in Hr. injection Hr as _ <- _. by destruct ctx'.
Qed.

Lemma getPost_rendered r name ctx :
  (getPost AuthorID s URL r).1 = Render name ctx ->
  exists guild post cur res,
    (if (cursorOf r).1 then MessagesAfter s (ID post) cur 25
     else MessagesBefore s (ID post) cur 25) = res /\
    groupMessages AuthorID s (GuildID_ guild) (fetched res)
    = Some (MessageGroups ctx).
Proof.
  unfold getPost, orReturn.
  destruct (guildFromReq s r) as [[f|guild] t1]; cbn [bind]; [discriminate|].
  destruct (forumFromReq s r) as [[f|forum] t2]; cbn [bind]; [discriminate|].
  destruct (postFromReq s r) as [[f|post] t3]; cbn [bind]; [discriminate|].
  destruct (renderPost AuthorID s URL guild forum post r) as [resp t4] eqn:Hr.
  cbn. intros ->. exists guild, post. by eapply renderPost_rendered.
Qed.

End RenderedFacts.

(** C1. Whatever gateway events and page requests the cache has seen,
    and whether the request pages after a cursor, before a cursor or
    without one, the messages of a post that [getPost] renders are, read
    through the groups in order, the rendering of a page that is strictly
    ascending by message identifier. *)
Theorem getPost_messages_ascending {RAuthor RMessage : Type}
    (AuthorID : RAuthor -> Z) (s : @Collab RAuthor RMessage)
    (rest : MessageCache.Rest) (ops : list MessageCache.Op)
    (URL : string) (r : Request) (name : string) (ctx : PostCtx) :
  (getPost AuthorID (withCache s rest (MessageCache.run ∅ ops).1) URL r).1
  = Render name ctx ->
  exists gid msgs,
    concat (Messages <$> MessageGroups ctx) = rendered s gid <$> msgs /\
    StronglySorted Z.lt (Discord.MsgID <$> msgs).
Proof.
  intros Hr. apply getPost_rendered in Hr as (guild & post & cur & res & Hres & Hgrp).
  exists (Discord.GuildID_ guild), (fetched res).
  destruct (groupMessages_concat AuthorID
              (withCache s rest (MessageCache.run ∅ ops).1)
              (Discord.GuildID_ guild) (fetched res)) as (msgrps & Hgrp' & Hcat).
  rewrite Hgrp in Hgrp'. injection Hgrp' as <-. split; [exact Hcat|].
  apply (StronglySorted_fmap _ idLt); [done|].
  pose proof (run_wellOrdered ∅ ops wellOrdered_empty) as Hw.
  subst res. destruct (cursorOf r).1; cbn [withCache MessagesAfter MessagesBefore].
  - apply (page_ascending rest _ (Discord.ID post) cur MessageCache.After 25 Hw).
  - apply (page_ascending rest _ (Discord.ID post) cur MessageCache.Before 25 Hw).
Qed.

(** ** The handlers on a history of the cache *)

Example arrivals_ids :
  MessageCache.ids (MessageCache.run ∅ arrivals).1 3 = [100; 101; 102; 103].
Proof. reflexivity. Qed.

Lemma getPost_messages_ascending_witness :
  exists name ctx,
    (getPost Discord.UserID
       (withCache Fixture.plain restOpen (MessageCache.run ∅ arrivals).1) ""
       (Fixture.request "3" "" "" "103")).1 = Render name ctx /\
    exists gid msgs,
      concat (Messages <$> MessageGroups ctx)
      = rendered Fixture.plain gid <$> msgs /\
      StronglySorted Z.lt (Discord.MsgID <$> msgs).
Proof.
  eexists _, _. split; [reflexivity|].
  apply (getPost_messages_ascending Discord.UserID Fixture.plain restOpen arrivals
           "" (Fixture.request "3" "" "" "103") "post.gohtml").
  reflexivity.
Defined.

(** Paging before message 103 gives 100 to 102, oldest first. *)
Example getPost_before_cursor :
  (fun ctx => (concat (Messages <$> MessageGroups ctx), PPrev ctx, PNext ctx)) <$>
    (match (getPost Discord.UserID
              (withCache Fixture.plain restOpen (MessageCache.run ∅ arrivals).1) ""
              (Fixture.request "3" "" "" "103")).1 with
     | Render _ ctx => Some ctx
     | _ => None
     end)
  = Some ([Discord.mkMessage 100 3 1 Fixture.alice "a" false;
           Discord.mkMessage 101 3 1 Fixture.alice "b" false;
           Discord.mkMessage 102 3 1 Fixture.bob "c" true], 0, 102).
Proof. reflexivity. Qed.

(** The scenarios of the specification on the modelled cache: a first page
    of a channel of ten messages triggers one backfill and returns the ten,
    ascending, with both flags false; the page after message 10 of thirty
    cached messages is messages 11 to 30, with messages before and none
    after. *)
Example scenario_first_page :
  let '(res, c, calls) := MessageCache.page restTen ∅ 3 0 MessageCache.After 25 in
  res = (numbered 10, false, false, None) /\
  calls = [MessageCache.FetchHistory 3 0 MessageCache.After 25] /\
  MessageCache.backfillState (MessageCache.entry c 3) = MessageCache.Complete.
Proof. repeat split; reflexivity. Qed.

Example scenario_thirty_cached :
  MessageCache.window (numbered 30) 10 MessageCache.After 25
  = (drop 10 (numbered 30), true, false) /\
  length (drop 10 (numbered 30)) = 20%nat.
Proof. split; reflexivity. Qed.

(** In the modelled cache the page after the newest cached message is
    empty and has cached messages before it: the flags tell whether
    entries lie outside the returned slice (4.4), and the boundary policy
    only clears the flag of the side on which fewer than [limit] remain. *)
Example page_after_newest :
  (MessageCache.MessagesAfter restOpen (MessageCache.run ∅ arrivals).1 3 103 25).1.1
  = ([], true, false, None).
Proof. reflexivity. Qed.

(** ** A channel that has become inactive *)

Lemma inactive_never_fetches_witness :
  MessageCache.backfillState
    (MessageCache.entry (MessageCache.run archivedCache laterOps).1 3)
  = MessageCache.Inactive /\
  forall rc, rc ∈ (MessageCache.run archivedCache laterOps).2 ->
             MessageCache.restChannel rc <> 3.
Proof.
  apply (inactive_never_fetches archivedCache 3 laterOps). reflexivity.
Defined.

(** The only fetch of the later operations is the one for channel 4, and
    the late event is in the cache of channel 3. *)
Example laterOps_calls :
  (MessageCache.run archivedCache laterOps).2
  = [MessageCache.FetchHistory 4 0 MessageCache.After 25] /\
  MessageCache.ids (MessageCache.run archivedCache laterOps).1 3
  = [100; 101; 102; 103; 104].
Proof. split; reflexivity. Qed.

(** * More of server.go *)

(** ** Pages of a forum *)

Section ForumPages.

Import Errors Http Discord.
Context {RAuthor RMessage : Type}.
Variable s : @Collab RAuthor RMessage.
Variable URL : string.

Lemma take_then_take_drop {A} (l : list A) (n m : nat) :
  take n l ++ take m (drop n l) = take (n + m) l.
Proof.
  revert l. induction n as [|n IH]; intros l; [done|].
  destruct l as [|x l]; cbn; [by rewrite take_nil|]. by rewrite IH.
Qed.

Lemma elem_of_concat {A} (x : A) (ls : list (list A)) :
  x ∈ concat ls <-> exists l, x ∈ l /\ l ∈ ls.
Proof.
  induction ls as [|l0 ls IH]; cbn.
  - split; [by intros ?%elem_of_nil|]. by intros (l & _ & ?%elem_of_nil).
  - rewrite elem_of_app, IH. split.
    + intros [Hx|(l & Hx & Hl)].
      * exists l0. split; [done|apply list_elem_of_here].
      * exists l. split; [done|by apply list_elem_of_further].
    + intros (l & Hx & [->|Hl]%elem_of_cons); [by left|right; by exists l].
Qed.

(** X1.  Past the lookups, a page whose bounds do not overflow is rendered with
    the 25 posts from the page's lower bound on, [Prev] set to the page
    before unless this is page 1, and [Next] set to the page after exactly
    when posts remain behind this page; the only calls are the two lookups
    and the channel list. *)
Theorem getForum_page_in_range r guild forum chans t1 t2 :
  guildFromReq s r = (inr guild, t1) ->
  forumFromReq s r = (inr forum, t2) ->
  channels s (GuildID_ guild) = Ok chans ->
  let page := pageOf (paramPage r) in
  let posts := collectPosts forum chans in
  page * 25 <= GoInt.maxInt ->
  getForum s URL r
  = (Render "forum.gohtml"
       (mkForumCtx guild forum
          (take 25 (drop (Z.to_nat ((page - 1) * 25)) posts))
          (if page >? 1 then page - 1 else 0)
          (if len posts >? page * 25 then page + 1 else 0)
          URL),
     t1 ++ t2 ++ [CallChannels (GuildID_ guild)]) /\
  ((len posts >? page * 25) = true <-> drop (Z.to_nat (page * 25)) posts <> []).
Proof.
  intros Hg Hf Hc page posts H25.
  pose proof (pageOf_range (paramPage r)) as Hp. fold page in Hp.
  split.
  - rewrite (getForum_after_lookups _ _ _ _ _ _ _ _ Hg Hf Hc).
    fold page posts. rewrite paginate_in_range by lia. reflexivity.
  - unfold len. rewrite Z.gtb_ltb, Z.ltb_lt. split.
    + intros Hlt Hnil. apply (f_equal length) in Hnil.
      rewrite length_drop in Hnil. cbn in Hnil. lia.
    + intros Hne. destruct (decide (page * 25 < Z.of_nat (length posts))); [done|].
      exfalso. apply Hne. apply drop_ge. lia.
Qed.

(** X2.  The pages of a list of posts lie side by side: the first [k] pages,
    one after the other, are the first [25 k] posts, so that no post is
    left out or shown twice, and they are all the posts once [25 k]
    reaches their number. *)
Theorem forum_pages_tile_posts (ctx : ForumCtx) (posts : list Post) (k : nat) :
  Z.of_nat k * 25 <= GoInt.maxInt ->
  concat ((fun p => default [] (snd <$> paginate ctx posts (Z.of_nat p))) <$> seq 1 k)
  = take (25 * k) posts /\
  ((length posts <= 25 * k)%nat ->
   concat ((fun p => default [] (snd <$> paginate ctx posts (Z.of_nat p))) <$> seq 1 k)
   = posts).
Proof.
  intros Hk.
  assert (Htile :
    concat ((fun p => default [] (snd <$> paginate ctx posts (Z.of_nat p))) <$> seq 1 k)
    = take (25 * k) posts).
  { induction k as [|k IH]; [done|].
    rewrite seq_S, fmap_app, concat_app, IH by lia. cbn [fmap list_fmap concat].
    rewrite paginate_in_range by lia. cbn [fmap option_fmap option_map snd default].
    rewrite app_nil_r.
    replace (Z.to_nat ((Z.of_nat (1 + k) - 1) * 25)) with (25 * k)%nat by lia.
    unfold id. rewrite take_then_take_drop. f_equal. lia. }
  split; [exact Htile|]. intros Hall. rewrite Htile. by apply take_ge.
Qed.

(** X3.  The tags of a post are the available tags of the forum that the thread
    has applied, in the order in which the thread applies them; an applied
    tag that the forum does not offer is left out. *)
Theorem postTags_are_applied_available_tags (forum thread : Channel) :
  postTags forum thread
  = concat ((fun tag => filter (fun availtag => TagID availtag = tag)
                          (AvailableTags forum)) <$> AppliedTags thread) /\
  forall t, t ∈ postTags forum thread <->
            t ∈ AvailableTags forum /\ TagID t ∈ AppliedTags thread.
Proof.
  assert (Hinner : forall tag avail acc,
    fold_left (fun tags availtag =>
                 if TagID availtag =? tag then tags ++ [availtag] else tags)
      avail acc
    = acc ++ filter (fun availtag => TagID availtag = tag) avail).
  { intros tag avail. induction avail as [|a avail IH]; intros acc; cbn [fold_left].
    - by rewrite app_nil_r.
    - rewrite IH, filter_cons. destruct (Z.eqb_spec (TagID a) tag) as [Heq|Hne].
      + rewrite decide_True by done. by rewrite <- app_assoc.
      + by rewrite decide_False. }
  assert (Houter : forall applied acc,
    fold_left
      (fun tags tag =>
         fold_left (fun tags availtag =>
                      if TagID availtag =? tag then tags ++ [availtag] else tags)
           (AvailableTags forum) tags)
      applied acc
    = acc ++ concat ((fun tag => filter (fun availtag => TagID availtag = tag)
                                   (AvailableTags forum)) <$> applied)).
  { induction applied as [|tag applied IH]; intros acc; cbn [fold_left].
    - by rewrite app_nil_r.
    - rewrite IH, Hinner. cbn. by rewrite <- app_assoc. }
  assert (Heq : postTags forum thread
    = concat ((fun tag => filter (fun availtag => TagID availtag = tag)
                            (AvailableTags forum)) <$> AppliedTags thread)).
  { unfold postTags. by rewrite Houter. }
  split; [exact Heq|]. intros t. rewrite Heq. rewrite elem_of_concat. split.
  - intros (l & Ht & Hl). apply list_elem_of_fmap in Hl as (tag & -> & Htag).
    apply list_elem_of_filter in Ht as [Heq' Ht]. by subst tag.
  - intros [Ht Htag]. exists (filter (fun availtag => TagID availtag = TagID t)
                                (AvailableTags forum)). split.
    + by apply list_elem_of_filter.
    + apply list_elem_of_fmap. by exists (TagID t).
Qed.

End ForumPages.

(** ** Outcomes of getPost *)

Section PostOutcomes.

Import Errors Http Discord.
Context {RAuthor RMessage : Type}.
Variable AuthorID : RAuthor -> Snowflake.
Variable s : @Collab RAuthor RMessage.
Variable URL : string.

Lemma guildFromReq_status r f t : guildFromReq s r = (inl f, t) -> lookupStatus f.1.
Proof.
  unfold guildFromReq, lookupStatus. destruct (ParseSnowflake _); cbn.
  - destruct (CabinetGuild s _); [discriminate|].
    destruct (discordStatusIs _ _); intros [= <- _]; cbn; auto.
  - intros [= <- _]; cbn; auto.
Qed.

Lemma forumFromReq_status r f t : forumFromReq s r = (inl f, t) -> lookupStatus f.1.
Proof.
  unfold forumFromReq, lookupStatus. destruct (ParseSnowflake _); cbn.
  - destruct (CabinetChannel s _) as [forum|].
    + destruct (NSFW forum); [|discriminate]. intros [= <- _]; cbn; auto.
    + destruct (discordStatusIs _ _); intros [= <- _]; cbn; auto.
  - intros [= <- _]; cbn; auto.
Qed.

Lemma postFromReq_status r f t : postFromReq s r = (inl f, t) -> lookupStatus f.1.
Proof.
  unfold postFromReq, lookupStatus. destruct (ParseSnowflake _); cbn.
  - destruct (StateChannel s _); [discriminate|].
    destruct (discordStatusIs _ _); intros [= <- _]; cbn; auto.
  - intros [= <- _]; cbn; auto.
Qed.

Lemma cursors_panic (ctx : @PostCtx RAuthor RMessage) msgs hasbefore hasafter :
  cursors ctx msgs hasbefore hasafter = None -> hasbefore = true /\ msgs = [].
Proof.
  intros Hnone.
  assert (Hsome : (hasbefore = true -> msgs <> []) -> False).
  { intros Hinv. destruct (cursors_in_bounds ctx msgs hasbefore hasafter Hinv).
    congruence. }
  destruct hasbefore; [|exfalso; by apply Hsome].
  destruct msgs; [done|]. exfalso. by apply Hsome.
Qed.

(** X5.  [getPost] answers with an error page of status 400, 403, 404 or 500
    and no other, or executes the post template; it panics in one case
    only, when the fetch reports messages before a page that is empty. *)
Theorem getPost_outcomes (r : Request) :
  match (getPost AuthorID s URL r).1 with
  | DisplayErr status _ => lookupStatus status
  | Render name _ => name = "post.gohtml"%string
  | Panic => exists post cur hasafter err,
               fetchOf s r post cur = ([], true, hasafter, err)
  end.
Proof.
  unfold getPost, orReturn.
  destruct (guildFromReq s r) as [[f|guild] t1] eqn:Hg; cbn [bind fst].
  { by eapply guildFromReq_status. }
  destruct (forumFromReq s r) as [[f|forum] t2] eqn:Hf; cbn [bind fst].
  { by eapply forumFromReq_status. }
  destruct (postFromReq s r) as [[f|post] t3] eqn:Hp; cbn [bind fst].
  { by eapply postFromReq_status. }
  unfold renderPost, fetchOf. destruct (cursorOf r) as [asc curstr]. cbn [fst].
  destruct (if negb (String.eqb curstr "") then ParseSnowflake curstr else Some 0)
    as [cur|]; [|cbn; unfold lookupStatus; auto].
  assert (Hcall : exists c,
    (if asc
     then call (CallMessagesAfter (ID post) cur 25) (MessagesAfter s (ID post) cur 25)
     else call (CallMessagesBefore (ID post) cur 25) (MessagesBefore s (ID post) cur 25))
    = (if asc then MessagesAfter s (ID post) cur 25
       else MessagesBefore s (ID post) cur 25, [c])).
  { destruct asc; eexists; reflexivity. }
  destruct Hcall as [c ->]. cbn [bind].
  destruct (if asc then MessagesAfter s (ID post) cur 25
            else MessagesBefore s (ID post) cur 25)
    as [[[msgs hasbefore] hasafter] err] eqn:Hfetch.
  destruct (cursors _ msgs hasbefore hasafter) as [ctx|] eqn:Hcur.
  2:{ cbn. apply cursors_panic in Hcur as [-> ->].
      exists post, cur, hasafter, err. exact Hfetch. }
  destruct err as [err|]; [cbn; unfold lookupStatus; auto|]. cbn [bind call].
  destruct (ensureMembers s post msgs) as [err|]; [cbn; unfold lookupStatus; auto|].
  destruct (groupMessages_total AuthorID s (GuildID_ guild) msgs) as [msgrps ->].
  reflexivity.
Qed.

End PostOutcomes.

(** ** The calls and the cursors of getPost *)

Section PostCalls.

Import Errors Http Discord.
Context {RAuthor RMessage : Type}.
Variable AuthorID : RAuthor -> Snowflake.
Variable s : @Collab RAuthor RMessage.
Variable URL : string.

(** The call of the fetch of a request. *)
Lemma fetch_call r (post : Channel) cur :
  (if (cursorOf r).1
   then call (CallMessagesAfter (ID post) cur 25) (MessagesAfter s (ID post) cur 25)
   else call (CallMessagesBefore (ID post) cur 25) (MessagesBefore s (ID post) cur 25))
  = (fetchOf s r post cur,
     [if (cursorOf r).1 then CallMessagesAfter (ID post) cur 25
      else CallMessagesBefore (ID post) cur 25]).
Proof. unfold fetchOf. by destruct (cursorOf r).1. Qed.

(** [renderPost], step by step. *)
Lemma renderPost_steps guild forum post r :
  renderPost AuthorID s URL guild forum post r =
  match (if negb (String.eqb (cursorOf r).2 "")
         then ParseSnowflake (cursorOf r).2 else Some 0) with
  | None =>
      (DisplayErr StatusBadRequest
         (Some (Wrapped "invalid snowflake" (parseError (cursorOf r).2))), [])
  | Some cur =>
      let fetch := if (cursorOf r).1 then CallMessagesAfter (ID post) cur 25
                   else CallMessagesBefore (ID post) cur 25 in
      let msgs := fetched (fetchOf s r post cur) in
      match cursors (mkPostCtx guild forum post 0 0 [] URL) msgs
              (fetchOf s r post cur).1.1.2 (fetchOf s r post cur).1.2 with
      | None => (Panic, [fetch])
      | Some ctx =>
          match (fetchOf s r post cur).2 with
          | Some err =>
              (DisplayErr StatusInternalServerError
                 (Some (Wrapped "fetching post's messages" err)), [fetch])
          | None =>
              (match ensureMembers s post msgs with
               | Some err =>
                   DisplayErr StatusInternalServerError
                     (Some (Wrapped "fetching post's members" err))
               | None =>
                   match groupMessages AuthorID s (GuildID_ guild) msgs with
                   | None => Panic
                   | Some msgrps =>
                       Render "post.gohtml" (setMessageGroups ctx msgrps)
                   end
               end, [fetch; CallEnsureMembers post msgs])
          end
      end
  end.
Proof.
  unfold renderPost. destruct (cursorOf r) as [asc curstr] eqn:Hc. cbn [fst snd].
  destruct (if negb (String.eqb curstr "") then ParseSnowflake curstr else Some 0)
    as [cur|]; [|reflexivity].
  pose proof (fetch_call r post cur) as Hcall. rewrite Hc in Hcall. cbn [fst] in Hcall.
  rewrite Hcall. cbn [bind]. unfold fetched.
  destruct (fetchOf s r post cur) as [[[msgs hasbefore] hasafter] err]. cbn [fst snd].
  destruct (cursors _ msgs hasbefore hasafter) as [ctx|]; [|reflexivity].
  destruct err as [err|]; [reflexivity|]. cbn [bind call].
  destruct (ensureMembers s post msgs) as [err|]; [reflexivity|].
  destruct (groupMessages AuthorID s (GuildID_ guild) msgs); reflexivity.
Qed.

Lemma getPost_after_lookups r guild forum post t1 t2 t3 :
  guildFromReq s r = (inr guild, t1) ->
  forumFromReq s r = (inr forum, t2) ->
  postFromReq s r = (inr post, t3) ->
  getPost AuthorID s URL r
  = ((renderPost AuthorID s URL guild forum post r).1,
     t1 ++ t2 ++ t3 ++ (renderPost AuthorID s URL guild forum post r).2).
Proof.
  intros Hg Hf Hp. unfold getPost, orReturn. rewrite Hg. cbn [bind].
  rewrite Hf. cbn [bind]. rewrite Hp. cbn [bind].
  by destruct (renderPost AuthorID s URL guild forum post r).
Qed.

Lemma renderPost_bad_cursor guild forum post r :
  (if negb (String.eqb (cursorOf r).2 "")
   then ParseSnowflake (cursorOf r).2 else Some 0) = None ->
  renderPost AuthorID s URL guild forum post r
  = (DisplayErr StatusBadRequest
       (Some (Wrapped "invalid snowflake" (parseError (cursorOf r).2))), []).
Proof. intros Hnone. rewrite renderPost_steps. by rewrite Hnone. Qed.

Lemma renderPost_fetches guild forum post r cur :
  (if negb (String.eqb (cursorOf r).2 "")
   then ParseSnowflake (cursorOf r).2 else Some 0) = Some cur ->
  exists tail,
    (renderPost AuthorID s URL guild forum post r).2
    = (if (cursorOf r).1 then CallMessagesAfter (ID post) cur 25
       else CallMessagesBefore (ID post) cur 25) :: tail /\
    forall c, c ∈ tail -> exists msgs, c = CallEnsureMembers post msgs.
Proof.
  intros Hsome. rewrite renderPost_steps, Hsome. cbn zeta.
  destruct (cursors _ _ _ _) as [ctx|]; cbn [snd].
  2:{ exists []. split; [done|]. by intros c ?%elem_of_nil. }
  destruct (fetchOf s r post cur).2; cbn [snd].
  { exists []. split; [done|]. by intros c ?%elem_of_nil. }
  eexists [_]. split; [done|].
  intros c [->|?%elem_of_nil]%elem_of_cons; [by eexists|done].
Qed.

(** X6.  Past the lookups [getPost] makes one fetch of 25 messages for the post:
    after the cursor of [after] when the request has one, else before the
    cursor of [before] when it has that, else from the start.  A cursor
    that is no snowflake is answered with status 400 before any fetch.
    The only call that can follow the fetch is the member resolution for
    the same post. *)
Theorem getPost_fetch_direction r guild forum post t1 t2 t3 :
  guildFromReq s r = (inr guild, t1) ->
  forumFromReq s r = (inr forum, t2) ->
  postFromReq s r = (inr post, t3) ->
  let curstr := if decide (queryAfter r = ""%string) then queryBefore r
                else queryAfter r in
  let fetch cur :=
    if decide (queryAfter r = ""%string /\ queryBefore r <> ""%string)
    then CallMessagesBefore (ID post) cur 25
    else CallMessagesAfter (ID post) cur 25 in
  match (if decide (curstr = ""%string) then Some 0 else ParseSnowflake curstr) with
  | None =>
      getPost AuthorID s URL r
      = (DisplayErr 400 (Some (Wrapped "invalid snowflake" (parseError curstr))),
         t1 ++ t2 ++ t3)
  | Some cur =>
      exists tail,
        (getPost AuthorID s URL r).2 = t1 ++ t2 ++ t3 ++ fetch cur :: tail /\
        forall c, c ∈ tail -> exists msgs, c = CallEnsureMembers post msgs
  end.
Proof.
  intros Hg Hf Hp curstr fetch.
  rewrite (getPost_after_lookups _ _ _ _ _ _ _ Hg Hf Hp).
  assert (Hcur : cursorOf r
    = (negb (bool_decide (queryAfter r = ""%string /\ queryBefore r <> ""%string)),
       curstr)).
  { unfold cursorOf, curstr.
    destruct (String.eqb_spec (queryAfter r) "") as [Ha|Ha]; cbn [negb].
    - rewrite decide_True by done.
      destruct (String.eqb_spec (queryBefore r) "") as [Hb|Hb]; cbn [negb].
      + rewrite bool_decide_eq_false_2 by (intros [_ ?]; done). by rewrite Hb.
      + by rewrite bool_decide_eq_true_2.
    - rewrite decide_False by done.
      by rewrite bool_decide_eq_false_2 by (intros [? _]; done). }
  assert (Hfetch : forall cur,
    (if (cursorOf r).1 then CallMessagesAfter (ID post) cur 25
     else CallMessagesBefore (ID post) cur 25) = fetch cur).
  { intros cur. rewrite Hcur. cbn [fst]. unfold fetch. case_bool_decide.
    - by rewrite decide_True.
    - by rewrite decide_False. }
  lazymatch goal with
  | |- match ?parsed with Some _ => _ | None => _ end =>
      assert (Hparse :
        (if negb (String.eqb (cursorOf r).2 "")
         then ParseSnowflake (cursorOf r).2 else Some 0) = parsed);
      [|revert Hparse; destruct parsed as [cur|]; intros Hparse]
  end.
  { rewrite Hcur. cbn [snd].
    destruct (String.eqb_spec curstr "") as [He|He]; cbn [negb].
    - by rewrite decide_True.
    - by rewrite decide_False. }
  - destruct (renderPost_fetches guild forum post r cur Hparse) as (tail & -> & Ht).
    exists tail. cbn [snd]. by rewrite Hfetch.
  - rewrite (renderPost_bad_cursor guild forum post r Hparse).
    rewrite Hcur. cbn [fst snd]. by rewrite !app_nil_r.
Qed.

(** X7.  The member resolution is called for the post that was looked up and
    the page that was fetched, and only when the fetch returned no error. *)
Theorem getPost_members_after_fetch r p msgs :
  CallEnsureMembers p msgs ∈ (getPost AuthorID s URL r).2 ->
  (postFromReq s r).1 = inr p /\
  exists cur, fetched (fetchOf s r p cur) = msgs /\ (fetchOf s r p cur).2 = None.
Proof.
  intros Hin. unfold getPost in Hin.
  assert (Hg : forall c, c ∈ (guildFromReq s r).2 ->
                         forall p ms, c <> CallEnsureMembers p ms).
  { unfold guildFromReq. destruct (ParseSnowflake _); cbn.
    - destruct (CabinetGuild s _); [|destruct (discordStatusIs _ _)]; cbn;
        intros c [->|?%elem_of_nil]%elem_of_cons; done.
    - by intros c ?%elem_of_nil. }
  assert (Hf : forall c, c ∈ (forumFromReq s r).2 ->
                         forall p ms, c <> CallEnsureMembers p ms).
  { unfold forumFromReq. destruct (ParseSnowflake _); cbn.
    - destruct (CabinetChannel s _) as [forum|];
        [destruct (NSFW forum)|destruct (discordStatusIs _ _)]; cbn;
        intros c [->|?%elem_of_nil]%elem_of_cons; done.
    - by intros c ?%elem_of_nil. }
  assert (Hp : forall c, c ∈ (postFromReq s r).2 ->
                         forall p ms, c <> CallEnsureMembers p ms).
  { unfold postFromReq. destruct (ParseSnowflake _); cbn.
    - destruct (StateChannel s _); [|destruct (discordStatusIs _ _)]; cbn;
        intros c [->|?%elem_of_nil]%elem_of_cons; done.
    - by intros c ?%elem_of_nil. }
  apply orReturn_elem in Hin as [Hin|(guild & Hguild & Hin)];
    [exfalso; by eapply Hg|].
  apply orReturn_elem in Hin as [Hin|(forum & Hforum & Hin)];
    [exfalso; by eapply Hf|].
  apply orReturn_elem in Hin as [Hin|(post & Hpost & Hin)];
    [exfalso; by eapply Hp|].
  rewrite renderPost_steps in Hin.
  destruct (if negb (String.eqb (cursorOf r).2 "")
            then ParseSnowflake (cursorOf r).2 else Some 0) as [cur|];
    [|by apply elem_of_nil in Hin].
  cbn zeta in Hin.
  assert (Hne : CallEnsureMembers p msgs
    <> (if (cursorOf r).1 then CallMessagesAfter (ID post) cur 25
        else CallMessagesBefore (ID post) cur 25)).
  { by destruct (cursorOf r).1. }
  destruct (cursors _ _ _ _) as [ctx|]; cbn [snd] in Hin.
  2:{ apply elem_of_cons in Hin as [?|?%elem_of_nil]; done. }
  destruct (fetchOf s r post cur).2 eqn:Herr; cbn [snd] in Hin.
  { apply elem_of_cons in Hin as [?|?%elem_of_nil]; done. }
  apply elem_of_cons in Hin as [?|Hin]; [done|].
  apply elem_of_cons in Hin as [Heq|?%elem_of_nil]; [|done].
  injection Heq as -> ->. split; [done|]. by exists cur.
Qed.

(** The read of [msgs[0]] has no guard of its own: past the lookups, a
    fetch that reports messages before a page that is empty makes
    [getPost] panic right after the fetch, whatever its other flag and
    its error are. *)
Lemma getPost_panics_on_empty_page_before r guild forum post t1 t2 t3 cur hasafter err :
  guildFromReq s r = (inr guild, t1) ->
  forumFromReq s r = (inr forum, t2) ->
  postFromReq s r = (inr post, t3) ->
  (if negb (String.eqb (cursorOf r).2 "")
   then ParseSnowflake (cursorOf r).2 else Some 0) = Some cur ->
  fetchOf s r post cur = ([], true, hasafter, err) ->
  getPost AuthorID s URL r
  = (Panic,
     t1 ++ t2 ++ t3 ++
     [if (cursorOf r).1 then CallMessagesAfter (ID post) cur 25
      else CallMessagesBefore (ID post) cur 25]).
Proof.
  intros Hg Hf Hp Hcur Hfetch.
  rewrite (getPost_after_lookups _ _ _ _ _ _ _ Hg Hf Hp).
  rewrite renderPost_steps, Hcur. cbv zeta. rewrite Hfetch.
  unfold fetched. cbn [fst snd]. rewrite cursors_empty_before. reflexivity.
Qed.

End PostCalls.

(** ** The page after the newest message *)


(** The same request is reached through the pages themselves: the first
    page of thirty messages links to the page after message 25, and once
    the five newest messages have been deleted that page is empty and has
    messages before it. *)
Example getPost_next_link_after_deletes :
  PNext (contextOf
           (getPost Discord.UserID
              (withCache Fixture.plain restOpen (MessageCache.run ∅ thirtyArrive).1)
              "" (Fixture.request "3" "" "" "")).1
           (mkPostCtx Fixture.guild1 Fixture.forum2 Fixture.post3 0 0 [] ""))
  = 25 /\
  (getPost Discord.UserID
     (withCache Fixture.plain restOpen
        (MessageCache.run ∅ (thirtyArrive ++ newestDeleted)).1)
     "" (Fixture.request "3" "" "25" "")).1
  = Panic.
Proof. split; vm_compute; reflexivity. Qed.

(** A cursor beyond every cached message does the same. *)
Example getPost_cursor_beyond_newest :
  (getPost Discord.UserID cachedThread "" (Fixture.request "3" "" "999" "")).1
  = Panic.
Proof. reflexivity. Qed.

(** ** The cursors of a rendered post and the forum of its URL *)

Section PostContext.

Import Errors Http Discord.
Context {RAuthor RMessage : Type}.
Variable AuthorID : RAuthor -> Snowflake.
Variable s : @Collab RAuthor RMessage.
Variable URL : string.

Lemma index_first {A} (l : list A) : index l 0 = head l.
Proof. unfold index. cbn. by destruct l. Qed.

Lemma index_last {A} (l : list A) :
  (len l >? 0) = true -> index l (len l - 1) = last l.
Proof.
  unfold index, len. rewrite Z.gtb_ltb, Z.ltb_lt. intros Hpos.
  destruct (Z.ltb_spec (Z.of_nat (length l) - 1) 0); [lia|].
  rewrite last_lookup. f_equal. lia.
Qed.

(** What the cursors are when their reads are in bounds. *)
Lemma cursors_some (ctx ctx' : @PostCtx RAuthor RMessage) msgs hasbefore hasafter :
  cursors ctx msgs hasbefore hasafter = Some ctx' ->
  ctx' = mkPostCtx (PGuild ctx) (PForum ctx) (PPost ctx)
           (if hasbefore then from_option MsgID 0 (head msgs) else PPrev ctx)
           (if hasafter && (len msgs >? 0)
            then from_option MsgID 0 (last msgs) else PNext ctx)
           (MessageGroups ctx) (PURL ctx) /\
  (hasbefore = true -> msgs <> []).
Proof.
  unfold cursors. rewrite index_first.
  destruct (hasafter && (len msgs >? 0)) eqn:Hnext; cbn [mbind option_bind].
  - apply andb_true_iff in Hnext as [_ Hpos]. rewrite (index_last _ Hpos).
    destruct (last msgs) as [ml|] eqn:Hl; [|discriminate].
    cbn [mbind option_bind from_option].
    destruct hasbefore.
    + destruct msgs as [|m0 msgs]; [discriminate|]. cbn [head mbind option_bind].
      intros [= <-]. by split.
    + intros [= <-]. split; [by destruct ctx|done].
  - destruct hasbefore.
    + destruct msgs as [|m0 msgs]; [discriminate|]. cbn [head mbind option_bind].
      intros [= <-]. by split.
    + intros [= <-]. split; [by destruct ctx|done].
Qed.

(** X8.  A rendered post shows the post that was looked up; its [Prev] is the
    identifier of the first message of the fetched page when the fetch
    reports messages before it, its [Next] the identifier of the last
    message when the fetch reports messages after it, and both are zero
    otherwise. *)
Theorem getPost_cursors_are_page_ends r name ctx :
  (getPost AuthorID s URL r).1 = Render name ctx ->
  (postFromReq s r).1 = inr (PPost ctx) /\
  exists cur,
    let res := fetchOf s r (PPost ctx) cur in
    fetchError res = None /\
    PPrev ctx = (if reportsBefore res
                 then from_option MsgID 0 (head (fetched res)) else 0) /\
    PNext ctx = (if reportsAfter res
                 then from_option MsgID 0 (last (fetched res)) else 0) /\
    (reportsBefore res = true -> fetched res <> []).
Proof.
  unfold getPost, orReturn.
  destruct (guildFromReq s r) as [[f|guild] t1]; cbn [bind]; [discriminate|].
  destruct (forumFromReq s r) as [[f|forum] t2]; cbn [bind]; [discriminate|].
  destruct (postFromReq s r) as [[f|post] t3]; cbn [bind]; [discriminate|].
  destruct (renderPost AuthorID s URL guild forum post r) as [resp t4] eqn:Hr.
  cbn [fst]. intros ->. rewrite renderPost_steps in Hr.
  destruct (if negb (String.eqb (cursorOf r).2 "")
            then ParseSnowflake (cursorOf r).2 else Some 0) as [cur|];
    [|discriminate].
  cbn zeta in Hr. unfold fetched in Hr.
  destruct (fetchOf s r post cur) as [[[msgs hasbefore] hasafter] err] eqn:Hfetch.
  cbn [fst snd] in Hr.
  destruct (cursors _ msgs hasbefore hasafter) as [ctx'|] eqn:Hcur; [|discriminate].
  destruct err as [err|]; [discriminate|].
  destruct (ensureMembers s post msgs); [discriminate|].
  destruct (groupMessages AuthorID s (GuildID_ guild) msgs) as [msgrps|];
    [|discriminate].
  injection Hr as _ <- _. apply cursors_some in Hcur as [-> Hne]. cbn.
  split; [done|]. exists cur. rewrite Hfetch.
  unfold fetchError, reportsBefore, reportsAfter, fetched. cbn.
  repeat split; try done.
  destruct hasafter; [|done]. cbn [andb].
  destruct (Z.gtb_spec (len msgs) 0) as [_|Hle]; [done|].
  destruct msgs; [done|]. unfold len in Hle. cbn in Hle. lia.
Qed.

Lemma cursors_inForum (ctx : @PostCtx RAuthor RMessage) forum msgs hasbefore hasafter :
  cursors (mkPostCtx (PGuild ctx) forum (PPost ctx) (PPrev ctx) (PNext ctx)
             (MessageGroups ctx) (PURL ctx)) msgs hasbefore hasafter
  = (fun c => mkPostCtx (PGuild c) forum (PPost c) (PPrev c) (PNext c)
                (MessageGroups c) (PURL c))
    <$> cursors ctx msgs hasbefore hasafter.
Proof.
  unfold cursors.
  destruct (hasafter && (len msgs >? 0)); cbn [mbind option_bind].
  - destruct (index msgs (len msgs - 1)); [|done]. cbn [mbind option_bind].
    destruct hasbefore; [|done]. by destruct (index msgs 0).
  - destruct hasbefore; [|done]. by destruct (index msgs 0).
Qed.

(** X9.  [getPost] does not check that the post belongs to the forum of the
    URL: the forum is looked up, refused when it is NSFW and put into the
    context, and that is all.  Two requests for a post that differ in the
    forum only, both forums being accepted, get the same answer but for the
    forum of the context. *)
Theorem getPost_ignores_forum r1 r2 f1 f2 ta tb :
  paramGuildID r1 = paramGuildID r2 ->
  paramPostID r1 = paramPostID r2 ->
  queryAfter r1 = queryAfter r2 ->
  queryBefore r1 = queryBefore r2 ->
  forumFromReq s r1 = (inr f1, ta) ->
  forumFromReq s r2 = (inr f2, tb) ->
  (getPost AuthorID s URL r2).1 = inForum f2 (getPost AuthorID s URL r1).1.
Proof.
  intros Hgid Hpid Hafter Hbefore Hf1 Hf2.
  assert (Hg : guildFromReq s r1 = guildFromReq s r2).
  { unfold guildFromReq. by rewrite Hgid. }
  assert (Hp : postFromReq s r1 = postFromReq s r2).
  { unfold postFromReq. by rewrite Hpid. }
  assert (Hc : cursorOf r1 = cursorOf r2).
  { unfold cursorOf. by rewrite Hafter, Hbefore. }
  unfold getPost, orReturn. rewrite <- Hg, <- Hp, Hf1, Hf2.
  destruct (guildFromReq s r1) as [[f|guild] t1]; cbn [bind fst]; [done|].
  destruct (postFromReq s r1) as [[f|post] t3]; cbn [bind fst]; [done|].
  assert (Hbody : (renderPost AuthorID s URL guild f2 post r2).1
                  = inForum f2 (renderPost AuthorID s URL guild f1 post r1).1).
  { rewrite !renderPost_steps. unfold fetchOf. rewrite <- Hc.
    destruct (if negb (String.eqb (cursorOf r1).2 "")
              then ParseSnowflake (cursorOf r1).2 else Some 0) as [cur|]; [|done].
    cbn zeta.
    rewrite (cursors_inForum (mkPostCtx guild f1 post 0 0 [] URL) f2).
    destruct (cursors (mkPostCtx guild f1 post 0 0 [] URL) _ _ _) as [ctx|];
      [|done].
    cbn [fmap option_fmap option_map].
    destruct (if (cursorOf r1).1 then MessagesAfter s (ID post) cur 25
              else MessagesBefore s (ID post) cur 25).2; [done|].
    cbn [fst]. destruct (ensureMembers s post _); [done|].
    by destruct (groupMessages AuthorID s (GuildID_ guild) _). }
  destruct (renderPost AuthorID s URL guild f2 post r2) as [resp2 t4].
  destruct (renderPost AuthorID s URL guild f1 post r1) as [resp1 t5].
  exact Hbody.
Qed.

(** X10.  A forum that is NSFW is answered with status 403 by [getForum] and by
    [getPost], and after the lookup of the forum no collaborator is
    called: neither the channel list nor the post, its messages or its
    members are fetched. *)
Theorem nsfw_forum_is_forbidden r gid guild fid forum :
  ParseSnowflake (paramGuildID r) = Some gid -> CabinetGuild s gid = Ok guild ->
  ParseSnowflake (paramForumID r) = Some fid -> CabinetChannel s fid = Ok forum ->
  NSFW forum = true ->
  getForum s URL r
  = (DisplayErr 403 (Some (ErrorString "NSFW content is not served")),
     [CallCabinetGuild gid; CallCabinetChannel fid]) /\
  getPost AuthorID s URL r
  = (DisplayErr 403 (Some (ErrorString "NSFW content is not served")),
     [CallCabinetGuild gid; CallCabinetChannel fid]).
Proof.
  intros Hg Hgok Hf Hfok Hn.
  assert (Hforum : forumFromReq s r
    = (inl (StatusForbidden, Some (ErrorString "NSFW content is not served")),
       [CallCabinetChannel fid])).
  { unfold forumFromReq. rewrite Hf. cbn. rewrite Hfok. by rewrite Hn. }
  unfold getForum, getPost, orReturn.
  rewrite (guildFromReq_ok _ _ _ _ Hg Hgok). cbn [bind]. rewrite Hforum. done.
Qed.

End PostContext.

(** ** The size of the groups *)

Section GroupSizes.

Import Errors Http Discord.
Context {RAuthor RMessage : Type}.
Variable AuthorID : RAuthor -> Snowflake.
Variable s : @Collab RAuthor RMessage.

Lemma groupStep_sizes gid (grps : list MessageGroup) m :
  Forall (fun g => Messages g <> []) grps ->
  exists grps' : list MessageGroup,
    groupStep AuthorID s gid (grps, len grps - 1) m = Some (grps', len grps' - 1) /\
    Forall (fun g => Messages g <> []) grps' /\
    (length grps <= length grps' <= S (length grps))%nat /\ grps' <> [].
Proof.
  intros Hne. destruct grps as [|g grps0 _] using rev_ind.
  - exists [mkMessageGroup (author s (withGuildID gid m)) [rendered s gid m]].
    split; [reflexivity|]. split; [by repeat constructor|]. split; [cbn; lia|done].
  - rewrite groupStep_last by (unfold len; rewrite length_app; cbn; lia).
    apply Forall_app in Hne as [Hne0 Hg].
    destruct (negb _); eexists; (split; [f_equal; f_equal|]);
      try (unfold len; rewrite !length_app; cbn; lia).
    + split; [|split].
      * apply Forall_app. split; [by apply Forall_app|]. by repeat constructor.
      * rewrite !length_app. cbn. lia.
      * by intros [_ ?]%app_eq_nil.
    + split; [|split].
      * apply Forall_app. split; [done|]. apply Forall_singleton. cbn.
        by intros [_ ?]%app_eq_nil.
      * rewrite !length_app. cbn. lia.
      * by intros [_ ?]%app_eq_nil.
Qed.

(** X11.  The groups of a page: none of them is empty, there are at most as
    many as messages, they hold as many messages as the page, and there is
    no group exactly when the page is empty. *)
Theorem message_groups_sizes (gid : Snowflake) (msgs : list Message) :
  exists msgrps,
    groupMessages AuthorID s gid msgs = Some msgrps /\
    Forall (fun g => Messages g <> []) msgrps /\
    (length msgrps <= length msgs)%nat /\
    length (concat (Messages <$> msgrps)) = length msgs /\
    (msgrps = [] <-> msgs = []).
Proof.
  assert (Hloop : forall grps : list (@MessageGroup RAuthor RMessage),
    Forall (fun g => Messages g <> []) grps ->
    exists grps',
      fold_left (fun st m => st ← st; groupStep AuthorID s gid st m) msgs
        (Some (grps, len grps - 1)) = Some (grps', len grps' - 1) /\
      Forall (fun g => Messages g <> []) grps' /\
      (length grps <= length grps' <= length grps + length msgs)%nat /\
      (msgs <> [] -> grps' <> [])).
  { induction msgs as [|m msgs IH]; intros grps Hne; cbn [fold_left].
    - exists grps. repeat split; try done; lia.
    - cbn [mbind option_bind].
      destruct (groupStep_sizes gid grps m Hne) as (grps1 & -> & Hne1 & Hlen1 & Hnil1).
      destruct (IH grps1 Hne1) as (grps' & Hfold & Hne' & Hlen' & _).
      exists grps'. split; [done|]. split; [done|]. split; [cbn; lia|].
      intros _ ->. destruct grps1; [done|]. cbn in Hlen'. lia. }
  destruct (Hloop [] ltac:(constructor)) as (grps' & Hfold & Hne & Hlen & Hnil).
  destruct (groupMessages_concat AuthorID s gid msgs) as (msgrps & Hgrp & Hcat).
  exists msgrps. split; [done|].
  assert (msgrps = grps') as ->.
  { unfold groupMessages in Hgrp.
    change (Some (@nil (@MessageGroup RAuthor RMessage),
                  len (@nil (@MessageGroup RAuthor RMessage)) - 1))
      with (@Some (list (@MessageGroup RAuthor RMessage) * Z) ([], -1)) in Hfold.
    rewrite Hfold in Hgrp. by injection Hgrp. }
  split; [done|]. split; [cbn in Hlen; lia|].
  split; [by rewrite Hcat, length_fmap|]. split.
  - intros ->. destruct msgs; [done|]. exfalso. by apply Hnil.
  - intros ->. cbn in Hlen. destruct grps'; [done|]. cbn in Hlen. lia.
Qed.

End GroupSizes.

(** ** Stable sorting by a key, largest first *)

Section SortFacts.

Context {A : Type} (key : A -> Z).

Lemma insertStable_perm (less : A -> A -> bool) x l :
  insertStable less x l ≡ₚ x :: l.
Proof.
  induction l as [|y l IH]; cbn; [done|].
  destruct (less x y); [done|]. rewrite IH. apply Permutation_swap.
Qed.

Lemma insertStable_sorted x l :
  StronglySorted (fun a b => key a >= key b) l ->
  StronglySorted (fun a b => key a >= key b)
    (insertStable (fun a b => key a >? key b) x l).
Proof.
  induction l as [|y l IH]; intros Hs; cbn; [by repeat constructor|].
  pose proof Hs as Hs'. apply StronglySorted_cons in Hs' as [Hall Hl].
  destruct (Z.gtb_spec (key x) (key y)) as [Hgt|Hle].
  - constructor; [done|]. constructor; [lia|].
    rewrite Forall_forall in *. intros z Hz. specialize (Hall z Hz). lia.
  - constructor; [by apply IH|].
    rewrite Forall_forall in *. intros z Hz.
    rewrite insertStable_perm in Hz. apply elem_of_cons in Hz as [->|Hz]; [lia|].
    by apply Hall.
Qed.

(** An element goes behind the elements of its key. *)
Lemma insertStable_filter t x l :
  StronglySorted (fun a b => key a >= key b) l ->
  filter (fun a => key a = t) (insertStable (fun a b => key a >? key b) x l)
  = filter (fun a => key a = t) l ++ filter (fun a => key a = t) [x].
Proof.
  induction l as [|y l IH]; intros Hs; cbn [insertStable]; [done|].
  apply StronglySorted_cons in Hs as [Hall Hl].
  destruct (Z.gtb_spec (key x) (key y)) as [Hgt|Hle].
  - rewrite (filter_cons _ x). rewrite (filter_cons _ x []), filter_nil.
    destruct (decide (key x = t)) as [Hx|Hx]; [|by rewrite app_nil_r].
    assert (filter (fun a => key a = t) (y :: l) = []) as ->; [|done].
    apply elem_of_nil_inv. intros z [Hz Hin]%list_elem_of_filter.
    apply elem_of_cons in Hin as [->|Hin]; [lia|].
    rewrite Forall_forall in Hall. specialize (Hall z Hin). lia.
  - rewrite !(filter_cons _ y), IH by done. by destruct (decide (key y = t)).
Qed.

End SortFacts.

(** ** The guild page *)

Section GuildFacts.

Import Errors Http Discord.
Context {RAuthor RMessage Member : Type}.
Variable s : @Collab RAuthor RMessage.
Variable URL : string.
Variable CabinetChannels : Snowflake -> result (list Channel).
Variable CabinetMe : option User.
Variable StateMember : Snowflake -> Snowflake -> result Member.
Variable CalcOverwrites : Guild -> Channel -> Member -> Z.
Variable MessageCount : Channel -> Z.
Variable ErrorText : error -> string.

(** X12.  [publicActiveThreads] hands an error of the cabinet on, and otherwise
    returns the channels of the guild that are public threads, all of them
    and in the order of the cabinet. *)
Theorem publicActiveThreads_are_public_threads (gid : Snowflake) :
  publicActiveThreads CabinetChannels gid
  = match CabinetChannels gid with
    | Err err => Err err
    | Ok chans => Ok (filter (fun c => Type_ c = GuildPublicThread) chans)
    end.
Proof.
  unfold publicActiveThreads. destruct (CabinetChannels gid) as [chans|]; [|done].
  f_equal.
  assert (Hacc : forall acc,
    fold_left (fun threads channel =>
                 if negb (Type_ channel =? GuildPublicThread) then threads
                 else threads ++ [channel]) chans acc
    = acc ++ filter (fun c => Type_ c = GuildPublicThread) chans).
  { induction chans as [|c chans IH]; intros acc; cbn [fold_left].
    - by rewrite app_nil_r.
    - rewrite IH, filter_cons.
      destruct (Z.eqb_spec (Type_ c) GuildPublicThread) as [Heq|Hne]; cbn [negb].
      + rewrite decide_True by done. by rewrite <- app_assoc.
      + by rewrite decide_False. }
  by rewrite Hacc.
Qed.

Lemma forumPosts_filter chans forum :
  forumPosts chans forum = filter (isPostOf forum) chans.
Proof.
  unfold forumPosts.
  assert (Hacc : forall l acc,
    fold_left (fun posts t =>
                 if (ParentID t =? ID forum) && (Type_ t =? GuildPublicThread)
                 then posts ++ [t] else posts) l acc
    = acc ++ filter (isPostOf forum) l).
  { induction l as [|t l IH]; intros acc; cbn [fold_left].
    - by rewrite app_nil_r.
    - rewrite IH, filter_cons.
      destruct (Z.eqb_spec (ParentID t) (ID forum)) as [Hp|Hp];
        destruct (Z.eqb_spec (Type_ t) GuildPublicThread) as [Ht|Ht]; cbn [andb].
      + rewrite decide_True by (by split). by rewrite <- app_assoc.
      + by rewrite decide_False by (by intros [? ?]).
      + by rewrite decide_False by (by intros [? ?]).
      + by rewrite decide_False by (by intros [? ?]). }
  by rewrite Hacc.
Qed.

(** X13.  The guild page and the forum page agree on the posts of a forum: the
    posts [getGuild] lists under a forum are the channels of the posts
    that [getForum] collects for it, in the same order. *)
Theorem guild_and_forum_agree_on_posts (chans : list Channel) (forum : Channel) :
  forumPosts chans forum = PostChannel <$> collectPosts forum chans /\
  forall t, t ∈ forumPosts chans forum <->
            t ∈ chans /\ ParentID t = ID forum /\ Type_ t = GuildPublicThread.
Proof.
  rewrite forumPosts_filter, collectPosts_filter. split.
  - rewrite <- list_fmap_compose. cbn. by rewrite list_fmap_id.
  - intros t. rewrite list_elem_of_filter. unfold isPostOf. tauto.
Qed.

Lemma Has_canRead perms :
  Has perms (Z.lor (Z.lor 0 PermissionReadMessageHistory) PermissionViewChannel) = true
  <-> canRead perms.
Proof.
  unfold Has, canRead, PermissionReadMessageHistory, PermissionViewChannel.
  rewrite Z.eqb_eq, Z.lor_0_l, !Z.shiftl_1_l.
  assert (Hbits : forall n, 0 <= n ->
    Z.testbit (Z.lor (2 ^ 16) (2 ^ 10)) n = (16 =? n) || (10 =? n)).
  { intros n Hn. by rewrite Z.lor_spec, !Z.pow2_bits_eqb by lia. }
  split.
  - intros Heq. split.
    + apply (f_equal (fun z => Z.testbit z 10)) in Heq.
      rewrite Z.land_spec, Hbits in Heq by lia. cbn in Heq.
      by rewrite andb_true_r in Heq.
    + apply (f_equal (fun z => Z.testbit z 16)) in Heq.
      rewrite Z.land_spec, Hbits in Heq by lia. cbn in Heq.
      by rewrite andb_true_r in Heq.
  - intros [H10 H16]. apply Z.bits_inj_iff'. intros n Hn.
    rewrite Z.land_spec, Hbits by done.
    destruct (Z.eqb_spec 16 n) as [<-|_]; [by rewrite H16|].
    destruct (Z.eqb_spec 10 n) as [<-|_]; [by rewrite H10|].
    cbn. apply andb_false_r.
Qed.

(** X14.  The forums of the guild page are the channels of the guild that are
    forums and that the bot may view and read the history of, in the order
    of the channel list; each comes with its public threads, the sum of
    their message counts and its last activity. *)
Theorem forumChannels_are_readable_forums guild (selfMember : Member) chans :
  forumChannels CalcOverwrites MessageCount guild selfMember chans
  = (fun forum =>
       mkForumChannel forum (forumPosts chans forum)
         (messageCount MessageCount (forumPosts chans forum))
         (lastActive forum (forumPosts chans forum)))
    <$> filter (fun forum => Type_ forum = GuildForum /\
                             canRead (CalcOverwrites guild forum selfMember))
          chans.
Proof.
  unfold forumChannels.
  assert (Hacc : forall all chans acc,
    fold_left
      (fun fcs forum =>
         if negb (Type_ forum =? GuildForum) then fcs
         else
           let perms := CalcOverwrites guild forum selfMember in
           if negb (Has perms (Z.lor (Z.lor 0 PermissionReadMessageHistory)
                                 PermissionViewChannel))
           then fcs
           else
             let posts := forumPosts all forum in
             fcs ++ [mkForumChannel forum posts (messageCount MessageCount posts)
                       (lastActive forum posts)])
      chans acc
    = acc ++ ((fun forum =>
                 mkForumChannel forum (forumPosts all forum)
                   (messageCount MessageCount (forumPosts all forum))
                   (lastActive forum (forumPosts all forum)))
              <$> filter (fun forum => Type_ forum = GuildForum /\
                                       canRead (CalcOverwrites guild forum selfMember))
                    chans)).
  { clear chans. intros all chans.
    induction chans as [|c chans IH]; intros acc; cbn [fold_left].
    - by rewrite app_nil_r.
    - rewrite IH, filter_cons. cbn zeta.
      pose proof (Has_canRead (CalcOverwrites guild c selfMember)) as Hhas.
      destruct (Z.eqb_spec (Type_ c) GuildForum) as [Ht|Ht]; cbn [negb].
      + destruct (Has _ _); cbn [negb].
        * rewrite decide_True by (split; [done|by apply Hhas]).
          rewrite fmap_cons. by rewrite <- app_assoc.
        * rewrite decide_False; [done|]. intros [_ Hc]. apply Hhas in Hc. done.
      + by rewrite decide_False by (by intros [? ?]). }
  by rewrite Hacc.
Qed.

End GuildFacts.

(** ** The numbers and the order of the guild page *)

Lemma wrap64_add_l a b : GoInt.wrap64 (GoInt.wrap64 a + b) = GoInt.wrap64 (a + b).
Proof.
  unfold GoInt.wrap64.
  replace ((a + 2 ^ 63) mod 2 ^ 64 - 2 ^ 63 + b + 2 ^ 63)
    with ((a + 2 ^ 63) mod 2 ^ 64 + b) by lia.
  rewrite Zplus_mod_idemp_l.
  by replace (a + 2 ^ 63 + b) with (a + b + 2 ^ 63) by lia.
Qed.

Section GuildPage.

Import Errors Http Discord.
Context {RAuthor RMessage Member : Type}.
Variable s : @Collab RAuthor RMessage.
Variable URL : string.
Variable CabinetMe : option User.
Variable StateMember : Snowflake -> Snowflake -> result Member.
Variable CalcOverwrites : Guild -> Channel -> Member -> Z.
Variable MessageCount : Channel -> Z.
Variable ErrorText : error -> string.

(** X15.  The message count of a forum is the sum of the message counts of its
    posts as a 64-bit [int]: the sum itself whenever that is an [int]. *)
Theorem messageCount_is_sum (posts : list Channel) :
  messageCount MessageCount posts = GoInt.wrap64 (total (MessageCount <$> posts)) /\
  (GoInt.inRange (total (MessageCount <$> posts)) ->
   messageCount MessageCount posts = total (MessageCount <$> posts)).
Proof.
  assert (Hacc : forall acc,
    fold_left (fun msgcount post => GoInt.add msgcount (MessageCount post))
      posts (GoInt.wrap64 acc)
    = GoInt.wrap64 (acc + total (MessageCount <$> posts))).
  { induction posts as [|p posts IH]; intros acc; cbn [fold_left].
    - cbn. by rewrite Z.add_0_r.
    - unfold GoInt.add at 2. rewrite wrap64_add_l, IH. f_equal.
      unfold total. rewrite fmap_cons. cbn [foldr]. lia. }
  assert (Heq : messageCount MessageCount posts
                = GoInt.wrap64 (total (MessageCount <$> posts))).
  { unfold messageCount. change 0 with (GoInt.wrap64 0) at 1. by rewrite Hacc. }
  split; [exact Heq|]. intros Hr. rewrite Heq. by apply wrap64_id.
Qed.

(** X16.  The last activity of a forum is the latest of the time of its own
    last message, if it has a valid one, and the times of the last
    messages of its posts; a forum without a valid last message and
    without posts has the zero time. *)
Theorem lastActive_is_latest (forum : Channel) (posts : list Channel) :
  let own := if IsValid (LastMessageID forum) then Time (LastMessageID forum)
             else zeroTime in
  own <= lastActive forum posts /\
  (forall post, post ∈ posts -> Time (LastMessageID post) <= lastActive forum posts) /\
  (lastActive forum posts = own \/
   exists post, post ∈ posts /\ lastActive forum posts = Time (LastMessageID post)) /\
  (posts = [] -> lastActive forum posts = own).
Proof.
  intros own. unfold lastActive. fold own. generalize own as base. clear own.
  induction posts as [|p posts IH]; intros base; cbn [fold_left].
  - split; [lia|]. split; [by intros post ?%elem_of_nil|]. split; [by left|done].
  - destruct (IH (if Time (LastMessageID p) >? base then Time (LastMessageID p)
                  else base)) as (Hbase & Hall & Hex & _).
    destruct (Z.gtb_spec (Time (LastMessageID p)) base) as [Hgt|Hle].
    + split; [lia|]. split; [|split; [|done]].
      * intros post [->|Hin]%elem_of_cons; [done|by apply Hall].
      * right. destruct Hex as [->|(post & Hin & ->)].
        -- exists p. split; [apply list_elem_of_here|done].
        -- exists post. split; [by apply list_elem_of_further|done].
    + split; [lia|]. split; [|split; [|done]].
      * intros post [->|Hin]%elem_of_cons; [lia|by apply Hall].
      * destruct Hex as [->|(post & Hin & ->)]; [by left|right].
        exists post. split; [by apply list_elem_of_further|done].
Qed.

Lemma SliceStable_by_key {A} (key : A -> Z) (l : list A) :
  let sorted := SliceStable (fun a b => key a >? key b) l in
  StronglySorted (fun a b => key a >= key b) sorted /\
  sorted ≡ₚ l /\
  forall t, filter (fun a => key a = t) sorted = filter (fun a => key a = t) l.
Proof.
  unfold SliceStable.
  assert (Hacc : forall acc,
    StronglySorted (fun a b => key a >= key b) acc ->
    let sorted :=
      fold_left (fun sorted x => insertStable (fun a b => key a >? key b) x sorted)
        l acc in
    StronglySorted (fun a b => key a >= key b) sorted /\
    sorted ≡ₚ acc ++ l /\
    forall t, filter (fun a => key a = t) sorted
              = filter (fun a => key a = t) acc ++ filter (fun a => key a = t) l).
  { induction l as [|x l IH]; intros acc Hs; cbn [fold_left].
    - split; [done|]. split; [by rewrite app_nil_r|].
      intros t. by rewrite filter_nil, app_nil_r.
    - destruct (IH _ (insertStable_sorted key x acc Hs)) as (Hs' & Hp & Hf).
      split; [done|]. split.
      + rewrite Hp, insertStable_perm. cbn. apply Permutation_middle.
      + intros t. rewrite Hf, insertStable_filter by done.
        rewrite <- app_assoc. f_equal. by rewrite <- filter_app. }
  destruct (Hacc [] ltac:(constructor)) as (Hs & Hp & Hf). by split.
Qed.

(** X17.  The forums of a rendered guild page are the forums collected from the
    channel list, ordered by last activity, the most recent first; forums
    of the same last activity keep the order of the channel list. *)
Theorem getGuild_forums_by_activity r name ctx :
  getGuild s URL CabinetMe StateMember CalcOverwrites MessageCount ErrorText r
  = Render name ctx ->
  exists guild chans me selfMember,
    (guildFromReq s r).1 = inr guild /\
    channels s (GuildID_ guild) = Ok chans /\
    CabinetMe = Some me /\
    StateMember (GuildID_ guild) (UserID me) = Ok selfMember /\
    let collected := forumChannels CalcOverwrites MessageCount guild selfMember chans in
    StronglySorted (fun a b => LastActive a >= LastActive b) (ForumChannels ctx) /\
    ForumChannels ctx ≡ₚ collected /\
    forall t, filter (fun fc => LastActive fc = t) (ForumChannels ctx)
              = filter (fun fc => LastActive fc = t) collected.
Proof.
  unfold getGuild.
  destruct (guildFromReq s r).1 as [f|guild] eqn:Hg; [by destruct f|].
  destruct (channels s (GuildID_ guild)) as [chans|] eqn:Hc; [|discriminate].
  destruct CabinetMe as [me|]; [|discriminate].
  destruct (StateMember (GuildID_ guild) (UserID me)) as [selfMember|] eqn:Hm;
    [|discriminate].
  intros [= _ <-]. exists guild, chans, me, selfMember.
  do 4 (split; [done|]). cbn [ForumChannels].
  apply (SliceStable_by_key LastActive).
Qed.

(** X18.  [getGuild] answers with an error page of status 400, 404 or 500, or
    executes the guild template; it panics exactly when the guild and its
    channels are found and the cabinet has no own user.  A failure of the
    channel list is answered with status 500 whatever its HTTP status. *)
Theorem getGuild_outcomes (r : Request) :
  match getGuild s URL CabinetMe StateMember CalcOverwrites MessageCount ErrorText r with
  | DisplayErr status err =>
      (status = 400 \/ status = 404 \/ status = 500) /\
      (forall guild e, (guildFromReq s r).1 = inr guild ->
                       channels s (GuildID_ guild) = Err e -> status = 500)
  | Render name _ => name = "guild.gohtml"%string
  | Panic => CabinetMe = None /\
             exists guild chans, (guildFromReq s r).1 = inr guild /\
                                 channels s (GuildID_ guild) = Ok chans
  end /\
  (forall guild chans,
      (guildFromReq s r).1 = inr guild -> channels s (GuildID_ guild) = Ok chans ->
      CabinetMe = None ->
      getGuild s URL CabinetMe StateMember CalcOverwrites MessageCount ErrorText r
      = Panic).
Proof.
  split.
  2:{ intros guild chans Hg Hc Hme. unfold getGuild. by rewrite Hg, Hc, Hme. }
  unfold getGuild.
  destruct (guildFromReq s r) as [[f|guild] t] eqn:Hg; cbn [fst].
  - unfold guildFromReq in Hg. destruct (ParseSnowflake _); cbn in Hg.
    + destruct (CabinetGuild s _); [discriminate|].
      destruct (discordStatusIs _ _); injection Hg as <- _; cbn; split; auto;
        intros; discriminate.
    + injection Hg as <- _; cbn; split; auto; intros; discriminate.
  - destruct (channels s (GuildID_ guild)) as [chans|e] eqn:Hc.
    + destruct CabinetMe as [me|].
      * destruct (StateMember _ _); [done|]. split; [auto|].
        intros guild' e' [= <-]. congruence.
      * split; [done|]. by exists guild, chans.
    + split; [auto|]. done.
Qed.

End GuildPage.

(** ** The buffers of executeTemplate *)

Section PoolFacts.

Import Errors Http.
Context {C : Type}.
Variable executeTemplateFn : string -> C -> string * option error.
Variable ChecksumIEEE : string -> Z.

Lemma poolGet_empty (pool : Pool) pick :
  Forall (fun buf => buf = EmptyString) pool ->
  (poolGet pool pick).1 = EmptyString /\
  Forall (fun buf => buf = EmptyString) (poolGet pool pick).2.
Proof.
  intros Hpool. unfold poolGet. destruct (pool !! pick) as [buf|] eqn:Hl; cbn.
  - split; [by eapply (Forall_lookup_1 _ _ _ _ Hpool)|by apply Forall_delete].
  - done.
Qed.

Lemma executeTemplate_empty_pool (pool : Pool) pick name ctx :
  Forall (fun buf => buf = EmptyString) pool ->
  (executeTemplate executeTemplateFn ChecksumIEEE pool pick name ctx).1
  = (let '(out, err) := executeTemplateFn name ctx in
     match err with
     | None => ServeContent name (etagOf (ChecksumIEEE out)) out
     | Some err => ErrorPage StatusInternalServerError err
     end) /\
  Forall (fun buf => buf = EmptyString)
    (executeTemplate executeTemplateFn ChecksumIEEE pool pick name ctx).2.
Proof.
  intros Hpool. unfold executeTemplate.
  destruct (poolGet_empty pool pick Hpool) as [Hbuf Hrest].
  destruct (poolGet pool pick) as [buf pool']. cbn [fst snd] in *. subst buf.
  destruct (executeTemplateFn name ctx) as [out err]. cbn.
  split; [done|]. by constructor.
Qed.

(** X19.  Every buffer goes back to the pool reset, so whichever buffer the pool
    hands out is empty: from the empty pool of a new server on, every
    content that [executeTemplate] serves is the output of the template for
    this request and nothing else, its [ETag] is the checksum of that
    output, a template that fails is answered with status 500, and the
    buffers of the pool are empty afterwards. *)
Theorem executeTemplate_serves_template_output (reqs : list (nat * string * C)) :
  (executeAll executeTemplateFn ChecksumIEEE [] reqs).1
  = (fun '(pick, name, ctx) =>
       let '(out, err) := executeTemplateFn name ctx in
       match err with
       | None => ServeContent name (etagOf (ChecksumIEEE out)) out
       | Some err => ErrorPage 500 err
       end) <$> reqs /\
  Forall (fun buf => buf = EmptyString)
    (executeAll executeTemplateFn ChecksumIEEE [] reqs).2.
Proof.
  assert (Hacc : forall pool : Pool,
    Forall (fun buf => buf = EmptyString) pool ->
    (executeAll executeTemplateFn ChecksumIEEE pool reqs).1
    = (fun '(pick, name, ctx) =>
         let '(out, err) := executeTemplateFn name ctx in
         match err with
         | None => ServeContent name (etagOf (ChecksumIEEE out)) out
         | Some err => ErrorPage 500 err
         end) <$> reqs /\
    Forall (fun buf => buf = EmptyString)
      (executeAll executeTemplateFn ChecksumIEEE pool reqs).2).
  { induction reqs as [|[[pick name] ctx] reqs IH]; intros pool Hpool; [done|].
    cbn [executeAll].
    destruct (executeTemplate_empty_pool pool pick name ctx Hpool) as [Hs Hp].
    destruct (executeTemplate _ _ pool pick name ctx) as [served pool'].
    cbn [fst snd] in *. destruct (IH pool' Hp) as [Hs' Hp'].
    destruct (executeAll _ _ pool' reqs) as [rest pool'']. cbn [fst snd] in *.
    split; [|done]. rewrite fmap_cons. by rewrite Hs, Hs'. }
  by apply Hacc.
Qed.

End PoolFacts.

(** ** The further properties on the fixtures *)

Lemma getForum_page_in_range_witness :
  getForum Fixture.plain "" (Fixture.request "" "1" "" "")
  = (Render "forum.gohtml"
       (mkForumCtx Fixture.guild1 Fixture.forum2
          [mkPost Fixture.post3 [Fixture.tagDone]; mkPost Fixture.post4 []]
          0 0 ""),
     [CallCabinetGuild 1; CallCabinetChannel 2; CallChannels 1]) /\
  ((len (collectPosts Fixture.forum2 Fixture.chans) >? 1 * 25) = true <->
   drop 25 (collectPosts Fixture.forum2 Fixture.chans) <> []).
Proof.
  exact (getForum_page_in_range Fixture.plain "" (Fixture.request "" "1" "" "")
           Fixture.guild1 Fixture.forum2 Fixture.chans
           [CallCabinetGuild 1] [CallCabinetChannel 2]
           eq_refl eq_refl eq_refl ltac:(vm_compute; discriminate)).
Defined.

Lemma forum_pages_tile_posts_witness :
  concat ((fun p => default []
                      (snd <$> paginate (mkForumCtx Fixture.guild1 Fixture.forum2 [] 0 0 "")
                                 (collectPosts Fixture.forum2 Fixture.chans)
                                 (Z.of_nat p))) <$> seq 1 1)
  = take 25 (collectPosts Fixture.forum2 Fixture.chans).
Proof.
  exact (proj1 (forum_pages_tile_posts
                  (mkForumCtx Fixture.guild1 Fixture.forum2 [] 0 0 "")
                  (collectPosts Fixture.forum2 Fixture.chans) 1
                  ltac:(vm_compute; discriminate))).
Defined.

Lemma getPost_fetch_direction_witness :
  exists tail,
    (getPost Discord.UserID Fixture.plain "" (Fixture.request "3" "" "" "103")).2
    = [CallCabinetGuild 1] ++ [CallCabinetChannel 2] ++ [CallStateChannel 3]
      ++ CallMessagesBefore 3 103 25 :: tail /\
    forall c, c ∈ tail -> exists msgs, c = CallEnsureMembers Fixture.post3 msgs.
Proof.
  exact (getPost_fetch_direction Discord.UserID Fixture.plain ""
           (Fixture.request "3" "" "" "103") Fixture.guild1 Fixture.forum2
           Fixture.post3 [CallCabinetGuild 1] [CallCabinetChannel 2]
           [CallStateChannel 3] eq_refl eq_refl eq_refl).
Defined.

(** A cursor that is no number is refused before anything is fetched, and
    [after] goes before [before]. *)
Example getPost_cursor_parameters :
  getPost Discord.UserID Fixture.plain "" (Fixture.request "3" "" "x1" "103")
  = (DisplayErr 400
       (Some (Errors.Wrapped "invalid snowflake"
                (parseError "x1"))),
     [CallCabinetGuild 1; CallCabinetChannel 2; CallStateChannel 3]) /\
  (getPost Discord.UserID Fixture.plain "" (Fixture.request "3" "" "101" "103")).2
  = [CallCabinetGuild 1; CallCabinetChannel 2; CallStateChannel 3;
     CallMessagesAfter 3 101 25; CallEnsureMembers Fixture.post3 Fixture.thread].
Proof. split; reflexivity. Qed.

Lemma getPost_members_after_fetch_witness :
  (postFromReq membersTimeOut (Fixture.request "3" "" "" "")).1 = inr Fixture.post3 /\
  exists cur,
    fetched (fetchOf membersTimeOut (Fixture.request "3" "" "" "") Fixture.post3 cur)
    = Fixture.thread /\
    (fetchOf membersTimeOut (Fixture.request "3" "" "" "") Fixture.post3 cur).2 = None.
Proof.
  exact (getPost_members_after_fetch Discord.UserID membersTimeOut ""
           (Fixture.request "3" "" "" "") Fixture.post3 Fixture.thread
           membersTimeOut_called).
Defined.

Lemma getPost_cursors_are_page_ends_witness :
  (postFromReq middlePage (Fixture.request "3" "" "99" "")).1 = inr (PPost middleCtx) /\
  exists cur,
    let res := fetchOf middlePage (Fixture.request "3" "" "99" "") (PPost middleCtx) cur in
    fetchError res = None /\
    PPrev middleCtx = (if reportsBefore res
                       then from_option Discord.MsgID 0 (head (fetched res)) else 0) /\
    PNext middleCtx = (if reportsAfter res
                       then from_option Discord.MsgID 0 (last (fetched res)) else 0) /\
    (reportsBefore res = true -> fetched res <> []).
Proof.
  exact (getPost_cursors_are_page_ends Discord.UserID middlePage ""
           (Fixture.request "3" "" "99" "") "post.gohtml" middleCtx eq_refl).
Defined.

Lemma getPost_ignores_forum_witness :
  (getPost Discord.UserID Community.server "" (Community.request "1" "6" "3")).1
  = inForum Community.forum6
      (getPost Discord.UserID Community.server "" (Community.request "1" "2" "3")).1.
Proof.
  exact (getPost_ignores_forum Discord.UserID Community.server ""
           (Community.request "1" "2" "3") (Community.request "1" "6" "3")
           Fixture.forum2 Community.forum6
           [CallCabinetChannel 2] [CallCabinetChannel 6]
           eq_refl eq_refl eq_refl eq_refl eq_refl eq_refl).
Defined.

(** Post 3 is a thread of forum 2, and is rendered under forum 6 as well. *)
Example getPost_under_another_forum :
  Discord.ParentID Fixture.post3 = 2 /\
  (fun ctx => (Discord.ID (PForum ctx), Discord.ID (PPost ctx), PPrev ctx, PNext ctx))
    <$> (match (getPost Discord.UserID Community.server ""
                  (Community.request "1" "6" "3")).1 with
         | Render _ ctx => Some ctx
         | _ => None
         end)
  = Some (6, 3, 100, 103).
Proof. split; reflexivity. Qed.

Lemma nsfw_forum_is_forbidden_witness :
  getForum Community.server "" (Community.request "1" "9" "3")
  = (DisplayErr 403 (Some (Errors.ErrorString "NSFW content is not served")),
     [CallCabinetGuild 1; CallCabinetChannel 9]) /\
  getPost Discord.UserID Community.server "" (Community.request "1" "9" "3")
  = (DisplayErr 403 (Some (Errors.ErrorString "NSFW content is not served")),
     [CallCabinetGuild 1; CallCabinetChannel 9]).
Proof.
  exact (nsfw_forum_is_forbidden Discord.UserID Community.server ""
           (Community.request "1" "9" "3") 1 Fixture.guild1 9 Community.forum9
           eq_refl eq_refl eq_refl eq_refl eq_refl).
Defined.

Lemma getGuild_forums_by_activity_witness :
  exists guild chans me selfMember,
    (guildFromReq Community.server (Community.request "1" "" "")).1 = inr guild /\
    channels Community.server (Discord.GuildID_ guild) = Errors.Ok chans /\
    Some Community.bot = Some me /\
    Errors.Ok tt = Errors.Ok selfMember /\
    let collected :=
      forumChannels Community.botPerms Community.counts guild selfMember chans in
    StronglySorted (fun a b => LastActive a >= LastActive b)
      (ForumChannels communityCtx) /\
    ForumChannels communityCtx ≡ₚ collected /\
    forall t, filter (fun fc => LastActive fc = t) (ForumChannels communityCtx)
              = filter (fun fc => LastActive fc = t) collected.
Proof.
  exact (getGuild_forums_by_activity Community.server "" (Some Community.bot)
           (fun _ _ => Errors.Ok tt) Community.botPerms Community.counts
           (fun _ => "error"%string) (Community.request "1" "" "")
           "guild.gohtml" communityCtx eq_refl).
Defined.

(** The guild page lists forum 6, last active at 30 ms, before forum 2,
    whose posts were last active at 20 ms; forum 9, whose history the bot
    may not read, is left out.  The counts are the sums over the posts. *)
Example guildPage_forums :
  (fun fc => (Discord.ID (FCChannel fc), Discord.ID <$> FCPosts fc,
              TotalMessageCount fc, LastActive fc - Discord.Epoch))
    <$> ForumChannels communityCtx
  = [(6, [7], 70, 30); (2, [3; 4], 70, 20)].
Proof. reflexivity. Qed.

(** Two requests on a new server, the second with the buffer of the first:
    each content is its own template output. *)
Example executeTemplate_reuses_buffer :
  (executeAll (fun name (ctx : string) => (String.append name ctx, None))
     (fun _ => 48879) [] [(0, "a", "1"); (0, "b", "2")]%nat).1
  = [ServeContent "a" (String "034" (String.append "beef" (String "034" ""))) "a1";
     ServeContent "b" (String "034" (String.append "beef" (String "034" ""))) "b2"].
Proof. reflexivity. Qed.

(** ** Outcomes of getForum *)

Section ForumOutcomes.

Import Errors Http Discord.
Context {RAuthor RMessage : Type}.
Variable s : @Collab RAuthor RMessage.
Variable URL : string.

(** X4.  [getForum] answers with an error page of status 400, 403, 404 or 500
    and no other, or executes the forum template; it panics only for a
    page number whose upper bound [page*25] is no [int]. *)
Theorem getForum_outcomes (r : Request) :
  match (getForum s URL r).1 with
  | DisplayErr status _ => lookupStatus status
  | Render name _ => name = "forum.gohtml"%string
  | Panic => GoInt.maxInt < pageOf (paramPage r) * 25
  end.
Proof.
  unfold getForum, orReturn.
  destruct (guildFromReq s r) as [[f|guild] t1] eqn:Hg; cbn [bind fst].
  { by eapply guildFromReq_status. }
  destruct (forumFromReq s r) as [[f|forum] t2] eqn:Hf; cbn [bind fst].
  { by eapply forumFromReq_status. }
  cbn [call]. destruct (channels s (GuildID_ guild)) as [chans|err]; cbn.
  2:{ unfold lookupStatus. auto. }
  pose proof (pageOf_range (paramPage r)) as Hp.
  destruct (decide (pageOf (paramPage r) * 25 <= GoInt.maxInt)) as [H25|H25].
  - rewrite paginate_in_range by lia. reflexivity.
  - destruct (paginate _ _ _) as [[ctx posts]|]; [reflexivity|]. cbn. lia.
Qed.

End ForumOutcomes.
